(** * The Pomelo/nano client connector (connector.go)

    A shallow embedding of [Connector]: its handshake handling, the inbound
    dispatch loop ([read], [processPacket], [processMessage]), the outbound
    calls ([Request], [Notify], [sendMessage]) and the life-cycle ([Run],
    [Close], [IsClosed]).

    Conventions.
    - The packages [codec], [message], [packet], [encoding/json] and the
      transport are collaborators of the connector; their operations are the
      fields of the class [Externals].
    - Channels are kept as the history of what was sent on them: [chSend] is
      the list of buffers handed to [send], oldest first, and [die] counts the
      teardown signals.  The writer goroutine that drains [chSend] onto the
      transport is described apart, by [write].
    - Callbacks are caller code.  Calling one is recorded in [calls]; what the
      callback does next is outside the connector.
    - [log.Println] has no effect on the connector and is dropped;
      [log.Fatal] ends the process ([os.Exit(1)]).
    - Steps of different goroutines interleave.  No lock guards the
      life-cycle flag, so the goroutines that race on it run one statement
      per step: a heartbeat goroutine (start the ticker, test [IsClosed],
      send) and a [Close] of the caller (test the flag, close the transport,
      signal [die], clear the flag).  The goroutine inside [Run] takes a
      whole call as one step, and so do [Request], [Notify] and [On] of the
      caller.
    - A connector is run once: [Run] is not called again on a connector
      that has been closed. *)

From Stdlib Require Import ZArith List String.
From stdpp Require Import base gmap strings list fin_maps.
Import ListNotations.

Local Open Scope Z_scope.

(** ** Go values *)

(** [[]byte] whose nil-ness is never tested. *)
Definition bytes := list Byte.byte.

(** A non-nil Go [error], by its message. *)
Definition error := string.

(** A Go [error] result: [None] is [nil]. *)
Definition go_error := option error.

(** [uint] on a 64-bit target; [c.mid++] wraps around. *)
Definition uint_size : Z := 64.
Definition uint (z : Z) : Z := z mod 2 ^ uint_size.

(** [int64], the representation of [time.Duration]. *)
Definition int64 (z : Z) : Z := (z + 2 ^ 63) mod 2 ^ 64 - 2 ^ 63.

(** What becomes of the process while a function runs: it goes on with a
    value, it is ended by [log.Fatal], or it panics. *)
Inductive proc (A : Type) : Type :=
| Alive (a : A)
| Exited (status : Z)
| Panicked.
Arguments Alive {A} a.
Arguments Exited {A} status.
Arguments Panicked {A}.

(** Sequencing: the rest runs only while the process is alive. *)
#[global] Instance proc_bind : MBind proc := fun A B k m =>
  match m with
  | Alive a => k a
  | Exited n => Exited n
  | Panicked => Panicked
  end.

(** [log.Fatal(...)]: print, then [os.Exit(1)]. *)
Definition log_Fatal {A} : proc A := Exited 1.

(** ** The packet and message packages (types only) *)

Module packet.
Inductive Type_ : Set := Handshake | HandshakeAck | Heartbeat | Data | Kick.
Record Packet : Type := { Typ : Type_; Length : Z; Data_ : bytes }.
End packet.

Module message.
Inductive Type_ : Set := Request | Notify | Response | Push.
Record Message : Type :=
  { Typ : Type_; Route : string; ID : Z; Data_ : bytes }.
End message.

(** ** Types of connector.go *)

Record HeartbeatSysOpts : Type := { Heartbeat : Z }.
Record DefaultHandshakePacket : Type := { Code : Z; Sys : HeartbeatSysOpts }.

(** A non-nil [Callback] (a [func(data []byte)] of the caller). *)
Inductive Callback : Set := Fn (name : nat).
(** A non-nil connected callback (a [func()] of the caller). *)
Inductive ConnectedFn : Set := OnConnected (name : nat).

(** One call of caller code made by the connector. *)
Inductive invocation : Type :=
| InvokeCallback (cb : Callback) (data : bytes)
| InvokeConnected (f : ConnectedFn).

(** The transport handle held in [c.conn]. *)
Inductive net_Conn : Set := ConnOpen | ConnClosed.

(** Who handed a buffer to [send]. *)
Inductive sender : Set := ByRun | ByHandshake | ByTicker | BySendMessage.

(** Where a heartbeat goroutine stands: about to call [time.NewTicker];
    waiting for a tick; past the [IsClosed] test of a tick and about to
    send; returned. *)
Inductive ticker_pc : Set :=
| TickerStarting | TickerWaiting | TickerChecked | TickerReturned.

(** The goroutine started on a successful handshake: the [Heartbeat] value
    its ticker is built from, and where it stands. *)
Record ticker : Type := { seconds : Z; at_pc : ticker_pc }.

(** Where a [Close] call of the caller stands once it is past the test of
    the flag: the statement it runs next, or returned. *)
Inductive close_pc : Set :=
| CloseTransport | CloseSignal | CloseFlag | CloseReturned.

(** The collaborators. *)
Class Externals : Type := {
  (** the state behind [*codec.Decoder] *)
  Decoder : Type;
  (** [c.codec.Decode(buf[:n])] *)
  codec_Decode : Decoder -> bytes -> Decoder * (list packet.Packet + error);
  (** [codec.Encode(typ, data)]; [None] is a nil payload *)
  codec_Encode : packet.Type_ -> option bytes -> bytes + error;
  (** [msg.Encode()] *)
  message_Encode : message.Message -> bytes + error;
  (** [message.Decode(p.Data)] *)
  message_Decode : bytes -> message.Message + error;
  (** the values passed as [interface{}] to the setters *)
  value : Type;
  (** [json.Marshal(v)] *)
  json_Marshal : value -> bytes + error;
  (** [json.Unmarshal(p.Data, &handshakeResp)] *)
  json_Unmarshal : bytes -> DefaultHandshakePacket + error;
  (** [websocket.Dial(addr, addr, addr)] when [ws], [net.Dial("tcp", addr)]
      otherwise *)
  Dial : string -> bool -> go_error
}.

Section Connector_model.
Context `{E : Externals}.

(** ** The connector *)

(** [Connector].  The mutexes are left out: the two registries they guard
    are read and written in single steps, and [muConn] is never taken.
    [tickers], [calls] and [closers] are not fields of the Go struct: they
    record the heartbeat goroutines started so far, the calls of caller code
    made so far, and the [Close] calls of the caller that got past the test
    of the flag. *)
Record Connector : Type := mkConnector {
  conn : option net_Conn;
  codec : Decoder;
  mid : Z;
  connecting : bool;
  die : nat;
  chSend : list (sender * option bytes);
  connectedCallback : option ConnectedFn;
  handshakeData : option bytes;
  handshakeAckData : option bytes;
  heartbeatData : option bytes;
  events : gmap string (option Callback);
  responses : gmap Z Callback;
  tickers : list ticker;
  calls : list invocation;
  closers : list close_pc
}.

Definition with_conn (v : option net_Conn) (c : Connector) : Connector :=
  mkConnector v (codec c) (mid c) (connecting c) (die c) (chSend c)
    (connectedCallback c) (handshakeData c) (handshakeAckData c)
    (heartbeatData c) (events c) (responses c) (tickers c) (calls c)
    (closers c).

Definition with_codec (v : Decoder) (c : Connector) : Connector :=
  mkConnector (conn c) v (mid c) (connecting c) (die c) (chSend c)
    (connectedCallback c) (handshakeData c) (handshakeAckData c)
    (heartbeatData c) (events c) (responses c) (tickers c) (calls c)
    (closers c).

Definition with_mid (v : Z) (c : Connector) : Connector :=
  mkConnector (conn c) (codec c) v (connecting c) (die c) (chSend c)
    (connectedCallback c) (handshakeData c) (handshakeAckData c)
    (heartbeatData c) (events c) (responses c) (tickers c) (calls c)
    (closers c).

Definition with_connecting (v : bool) (c : Connector) : Connector :=
  mkConnector (conn c) (codec c) (mid c) v (die c) (chSend c)
    (connectedCallback c) (handshakeData c) (handshakeAckData c)
    (heartbeatData c) (events c) (responses c) (tickers c) (calls c)
    (closers c).

Definition with_die (v : nat) (c : Connector) : Connector :=
  mkConnector (conn c) (codec c) (mid c) (connecting c) v (chSend c)
    (connectedCallback c) (handshakeData c) (handshakeAckData c)
    (heartbeatData c) (events c) (responses c) (tickers c) (calls c)
    (closers c).

Definition with_chSend (v : list (sender * option bytes)) (c : Connector)
  : Connector :=
  mkConnector (conn c) (codec c) (mid c) (connecting c) (die c) v
    (connectedCallback c) (handshakeData c) (handshakeAckData c)
    (heartbeatData c) (events c) (responses c) (tickers c) (calls c)
    (closers c).

Definition with_connectedCallback (v : option ConnectedFn) (c : Connector)
  : Connector :=
  mkConnector (conn c) (codec c) (mid c) (connecting c) (die c) (chSend c)
    v (handshakeData c) (handshakeAckData c)
    (heartbeatData c) (events c) (responses c) (tickers c) (calls c)
    (closers c).

Definition with_handshakeData (v : option bytes) (c : Connector) : Connector :=
  mkConnector (conn c) (codec c) (mid c) (connecting c) (die c) (chSend c)
    (connectedCallback c) v (handshakeAckData c)
    (heartbeatData c) (events c) (responses c) (tickers c) (calls c)
    (closers c).

Definition with_handshakeAckData (v : option bytes) (c : Connector)
  : Connector :=
  mkConnector (conn c) (codec c) (mid c) (connecting c) (die c) (chSend c)
    (connectedCallback c) (handshakeData c) v
    (heartbeatData c) (events c) (responses c) (tickers c) (calls c)
    (closers c).

Definition with_heartbeatData (v : option bytes) (c : Connector) : Connector :=
  mkConnector (conn c) (codec c) (mid c) (connecting c) (die c) (chSend c)
    (connectedCallback c) (handshakeData c) (handshakeAckData c)
    v (events c) (responses c) (tickers c) (calls c)
    (closers c).

Definition with_events (v : gmap string (option Callback)) (c : Connector)
  : Connector :=
  mkConnector (conn c) (codec c) (mid c) (connecting c) (die c) (chSend c)
    (connectedCallback c) (handshakeData c) (handshakeAckData c)
    (heartbeatData c) v (responses c) (tickers c) (calls c)
    (closers c).

Definition with_responses (v : gmap Z Callback) (c : Connector) : Connector :=
  mkConnector (conn c) (codec c) (mid c) (connecting c) (die c) (chSend c)
    (connectedCallback c) (handshakeData c) (handshakeAckData c)
    (heartbeatData c) (events c) v (tickers c) (calls c)
    (closers c).

Definition with_tickers (v : list ticker) (c : Connector) : Connector :=
  mkConnector (conn c) (codec c) (mid c) (connecting c) (die c) (chSend c)
    (connectedCallback c) (handshakeData c) (handshakeAckData c)
    (heartbeatData c) (events c) (responses c) v (calls c)
    (closers c).

Definition with_calls (v : list invocation) (c : Connector) : Connector :=
  mkConnector (conn c) (codec c) (mid c) (connecting c) (die c) (chSend c)
    (connectedCallback c) (handshakeData c) (handshakeAckData c)
    (heartbeatData c) (events c) (responses c) (tickers c) v
    (closers c).

Definition with_closers (v : list close_pc) (c : Connector) : Connector :=
  mkConnector (conn c) (codec c) (mid c) (connecting c) (die c) (chSend c)
    (connectedCallback c) (handshakeData c) (handshakeAckData c)
    (heartbeatData c) (events c) (responses c) (tickers c) (calls c) v.

(** ** Configuration *)

(** [SetHandshake].  On an encoding error the field takes [Encode]'s first
    result, which is nil. *)
Definition SetHandshake (handshake : value) (c : Connector)
  : Connector * go_error :=
  match json_Marshal handshake with
  | inr err => (c, Some err)
  | inl data =>
      match codec_Encode packet.Handshake (Some data) with
      | inl b => (with_handshakeData (Some b) c, None)
      | inr err => (with_handshakeData None c, Some err)
      end
  end.

(** [SetHandshakeAck]; [None] is the nil interface. *)
Definition SetHandshakeAck (handshakeAck : option value) (c : Connector)
  : Connector * go_error :=
  match handshakeAck with
  | None =>
      match codec_Encode packet.HandshakeAck None with
      | inl b => (with_handshakeAckData (Some b) c, None)
      | inr err => (with_handshakeAckData None c, Some err)
      end
  | Some v =>
      match json_Marshal v with
      | inr err => (c, Some err)
      | inl data =>
          match codec_Encode packet.HandshakeAck (Some data) with
          | inl b => (with_handshakeAckData (Some b) c, None)
          | inr err => (with_handshakeAckData None c, Some err)
          end
      end
  end.

(** [SetHeartBeat]. *)
Definition SetHeartBeat (heartbeat : option value) (c : Connector)
  : Connector * go_error :=
  match heartbeat with
  | None =>
      match codec_Encode packet.Heartbeat None with
      | inl b => (with_heartbeatData (Some b) c, None)
      | inr err => (with_heartbeatData None c, Some err)
      end
  | Some v =>
      match json_Marshal v with
      | inr err => (c, Some err)
      | inl data =>
          match codec_Encode packet.Heartbeat (Some data) with
          | inl b => (with_heartbeatData (Some b) c, None)
          | inr err => (with_heartbeatData None c, Some err)
          end
      end
  end.

(** [Connected]. *)
Definition Connected (cb : option ConnectedFn) (c : Connector) : Connector :=
  with_connectedCallback cb c.

(** [On]: [c.events[event] = callback], a nil callback included. *)
Definition On (event : string) (callback : option Callback) (c : Connector)
  : Connector :=
  with_events (<[event := callback]> (events c)) c.

(** ** Life-cycle *)

(** [IsClosed]. *)
Definition IsClosed (c : Connector) : bool := negb (connecting c).

(** [Close], run from its first statement to its last with nothing in
    between.  [c.conn.Close()] on a nil [conn] is a nil dereference; the
    send on [die] is received by the writer goroutine. *)
Definition Close (c : Connector) : proc Connector :=
  if negb (connecting c) then Alive c
  else
    match conn c with
    | None => Panicked
    | Some _ =>
        Alive (with_connecting false
                 (with_die (S (die c)) (with_conn (Some ConnClosed) c)))
    end.

(** A [Close] of the caller, statement by statement.  [Close_enter] is the
    test of the flag: the call returns when the connector is closed and goes
    on otherwise.  [Close_next j] is the next statement of the [j]-th call
    that went on: [c.conn.Close()], then [c.die <- 1], then
    [c.connecting = false]. *)
Definition Close_enter (c : Connector) : Connector :=
  if negb (connecting c) then c
  else with_closers (closers c ++ [CloseTransport]) c.

Definition Close_next (j : nat) (c : Connector) : proc Connector :=
  match closers c !! j with
  | None => Alive c
  | Some CloseTransport =>
      match conn c with
      | None => Panicked
      | Some _ =>
          Alive (with_closers (<[j := CloseSignal]> (closers c))
                   (with_conn (Some ConnClosed) c))
      end
  | Some CloseSignal =>
      Alive (with_closers (<[j := CloseFlag]> (closers c))
               (with_die (S (die c)) c))
  | Some CloseFlag =>
      Alive (with_closers (<[j := CloseReturned]> (closers c))
               (with_connecting false c))
  | Some CloseReturned => Alive c
  end.

(** [send]: [c.chSend <- data]. *)
Definition send (who : sender) (data : option bytes) (c : Connector)
  : Connector :=
  with_chSend (chSend c ++ [(who, data)]) c.

(** ** The registries *)

(** [eventHandler]: [Some cb] when [ok]; [cb] itself may be nil. *)
Definition eventHandler (event : string) (c : Connector)
  : option (option Callback) :=
  events c !! event.

(** [responseHandler]: [Some cb] when [ok]. *)
Definition responseHandler (id : Z) (c : Connector) : option Callback :=
  responses c !! id.

(** [setResponseHandler]: a nil callback deletes the entry. *)
Definition setResponseHandler (id : Z) (cb : option Callback) (c : Connector)
  : Connector :=
  match cb with
  | None => with_responses (delete id (responses c)) c
  | Some f => with_responses (<[id := f]> (responses c)) c
  end.

(** ** Outbound messages *)

(** [sendMessage]. *)
Definition sendMessage (msg : message.Message) (c : Connector)
  : Connector * go_error :=
  match message_Encode msg with
  | inr err => (c, Some err)
  | inl data =>
      match codec_Encode packet.Data (Some data) with
      | inr err => (c, Some err)
      | inl payload =>
          (send BySendMessage (Some payload) (with_mid (uint (mid c + 1)) c),
           None)
      end
  end.

(** The message [Request] builds. *)
Definition request_message (route : string) (data : bytes) (c : Connector)
  : message.Message :=
  {| message.Typ := message.Request; message.Route := route;
     message.ID := mid c; message.Data_ := data |}.

(** [Request]. *)
Definition Request (route : string) (data : bytes) (callback : option Callback)
  (c : Connector) : Connector * go_error :=
  let msg := request_message route data c in
  let c1 := setResponseHandler (mid c) callback c in
  match sendMessage msg c1 with
  | (c2, Some err) => (setResponseHandler (mid c2) None c2, Some err)
  | (c2, None) => (c2, None)
  end.

(** [Notify]: the message's [ID] is left at its zero value. *)
Definition Notify (route : string) (data : bytes) (c : Connector)
  : Connector * go_error :=
  let msg := {| message.Typ := message.Notify; message.Route := route;
                message.ID := 0; message.Data_ := data |} in
  sendMessage msg c.

(** ** Inbound messages *)

(** [cb(data)] for a non-nil [cb]. *)
Definition invoke (cb : Callback) (data : bytes) (c : Connector) : Connector :=
  with_calls (calls c ++ [InvokeCallback cb data]) c.

(** [cb(data)] for a [cb] that may be nil: calling a nil func panics. *)
Definition call (cb : option Callback) (data : bytes) (c : Connector)
  : proc Connector :=
  match cb with
  | None => Panicked
  | Some f => Alive (invoke f data c)
  end.

(** [processMessage]. *)
Definition processMessage (c : Connector) (msg : message.Message)
  : proc Connector :=
  match message.Typ msg with
  | message.Push =>
      match eventHandler (message.Route msg) c with
      | None => Alive c
      | Some cb => call cb (message.Data_ msg) c
      end
  | message.Response =>
      match responseHandler (message.ID msg) c with
      | None => Alive c
      | Some cb =>
          let c1 := invoke cb (message.Data_ msg) c in
          Alive (setResponseHandler (message.ID msg) None c1)
      end
  | _ => Alive c
  end.

(** A [Response] message for request [id]. *)
Definition response_for (id : Z) (route : string) (data : bytes)
  : message.Message :=
  {| message.Typ := message.Response; message.Route := route;
     message.ID := id; message.Data_ := data |}.

(** ** The heartbeat goroutine *)

(** [time.Second * time.Duration(handshakeResp.Sys.Heartbeat)]. *)
Definition ticker_period (heartbeat : Z) : Z := int64 (1000000000 * heartbeat).

(** The [go func() { ... }()] statement of [processPacket]. *)
Definition go_heartbeat (heartbeat : Z) (c : Connector) : Connector :=
  with_tickers
    (tickers c ++ [{| seconds := heartbeat; at_pc := TickerStarting |}]) c.

(** Goroutine [i] at [pc]. *)
Definition ticker_at (i : nat) (pc : ticker_pc) (c : Connector) : Connector :=
  match tickers c !! i with
  | None => c
  | Some t =>
      with_tickers (<[i := {| seconds := seconds t; at_pc := pc |}]> (tickers c))
        c
  end.

(** The next statement of goroutine [i].  [time.NewTicker] panics on a
    period that is not positive.  When a tick arrives the goroutine tests
    [IsClosed]: it returns when the connector is closed and goes on to the
    send otherwise.  The send is a step of its own: nothing ties it to the
    test. *)
Definition ticker_step (i : nat) (c : Connector) : proc Connector :=
  match tickers c !! i with
  | None => Alive c
  | Some t =>
      match at_pc t with
      | TickerStarting =>
          if ticker_period (seconds t) <=? 0 then Panicked
          else Alive (ticker_at i TickerWaiting c)
      | TickerWaiting =>
          if IsClosed c then Alive (ticker_at i TickerReturned c)
          else Alive (ticker_at i TickerChecked c)
      | TickerChecked =>
          Alive (send ByTicker (heartbeatData c) (ticker_at i TickerWaiting c))
      | TickerReturned => Alive c
      end
  end.

(** ** Inbound packets *)

(** [c.connectedCallback()]. *)
Definition invoke_connected (f : ConnectedFn) (c : Connector) : Connector :=
  with_calls (calls c ++ [InvokeConnected f]) c.

(** [processPacket].  The [c.Close()] that follows each [log.Fatal] is kept
    where the source has it. *)
Definition processPacket (c : Connector) (p : packet.Packet) : proc Connector :=
  match packet.Typ p with
  | packet.Handshake =>
      match json_Unmarshal (packet.Data_ p) with
      | inr _ => Close c
      | inl handshakeResp =>
          if Code handshakeResp =? 200 then
            let c1 := go_heartbeat (Heartbeat (Sys handshakeResp)) c in
            let c2 := send ByHandshake (handshakeAckData c1) c1 in
            match connectedCallback c2 with
            | Some f => Alive (invoke_connected f c2)
            | None => Alive c2
            end
          else
            _ ← @log_Fatal unit; Close c
      end
  | packet.Data =>
      match message_Decode (packet.Data_ p) with
      | inr _ => Alive c
      | inl msg => processMessage c msg
      end
  | packet.Kick =>
      _ ← @log_Fatal unit; Close c
  | _ => Alive c
  end.

(** The [for i := range packets] loop of [read]. *)
Fixpoint processPackets (c : Connector) (packets : list packet.Packet)
  : proc Connector :=
  match packets with
  | [] => Alive c
  | p :: rest => c1 ← processPacket c p; processPackets c1 rest
  end.

(** ** Other goroutines *)

(** What a goroutine other than the one inside [Run] may do in one step:
    the caller calls [Close] and the flag is tested ([DoClose]); the [j]-th
    such call that went on runs its next statement ([DoCloseNext j]); the
    caller calls [Request], [Notify] or [On]; heartbeat goroutine [i] runs
    its next statement ([DoTick i]). *)
Inductive action : Type :=
| DoClose
| DoCloseNext (j : nat)
| DoRequest (route : string) (data : bytes) (callback : option Callback)
| DoNotify (route : string) (data : bytes)
| DoOn (event : string) (callback : option Callback)
| DoTick (i : nat).

Definition act (a : action) (c : Connector) : proc Connector :=
  match a with
  | DoClose => Alive (Close_enter c)
  | DoCloseNext j => Close_next j c
  | DoRequest route data callback => Alive (fst (Request route data callback c))
  | DoNotify route data => Alive (fst (Notify route data c))
  | DoOn event callback => Alive (On event callback c)
  | DoTick i => ticker_step i c
  end.

Fixpoint acts (l : list action) (c : Connector) : proc Connector :=
  match l with
  | [] => Alive c
  | a :: rest => c1 ← act a c; acts rest c1
  end.

(** ** The inbound dispatch loop *)

(** One iteration of [read], as its environment shapes it: what the other
    goroutines do during [time.Sleep(time.Second)], and what
    [c.conn.Read(buf)] returns ([inl buf[:n]] or [inr err]). *)
Record turn : Type :=
  { during_sleep : list action; read_result : bytes + error }.

(** How a blocking call stands once its script is used up. *)
Inductive blocking : Type :=
| Returned (c : Connector) (err : go_error)
| Reading (c : Connector)
| Died (how : proc Connector).

(** [read]: the loop runs one iteration per [turn]; with no turn left it is
    still inside the loop. *)
Fixpoint read (script : list turn) (c : Connector) : blocking :=
  match script with
  | [] => Reading c
  | t :: rest =>
      match acts (during_sleep t) c with
      | Alive c1 =>
          if IsClosed c1 then
            Returned c1 (Some "read err: connector is closed"%string)
          else
            match conn c1 with
            | None => Died Panicked
            | Some _ =>
                match read_result t with
                | inr err =>
                    match Close c1 with
                    | Alive c2 => Returned c2 (Some err)
                    | dead => Died dead
                    end
                | inl chunk =>
                    let (d, decoded) := codec_Decode (codec c1) chunk in
                    let c2 := with_codec d c1 in
                    match decoded with
                    | inr _ => read rest c2
                    | inl packets =>
                        match processPackets c2 packets with
                        | Alive c3 => read rest c3
                        | dead => Died dead
                        end
                    end
                end
            end
      | dead => Died dead
      end
  end.

(** [Run] up to and including [c.send(c.handshakeData)]: the connector it
    enters [read] with, or the error it returns at once. *)
Definition Run_start (addr : string) (ws : bool) (c : Connector)
  : Connector + (Connector * error) :=
  match handshakeData c with
  | None => inr (c, "handshake not defined"%string)
  | Some _ =>
      let r1 := match handshakeAckData c with
                | None => SetHandshakeAck None c
                | Some _ => (c, None)
                end in
      match r1 with
      | (c1, Some err) => inr (c1, err)
      | (c1, None) =>
          let r2 := match heartbeatData c1 with
                    | None => SetHeartBeat None c1
                    | Some _ => (c1, None)
                    end in
          match r2 with
          | (c2, Some err) => inr (c2, err)
          | (c2, None) =>
              match Dial addr ws with
              | Some err => inr (c2, err)
              | None =>
                  let c3 := with_connecting true
                              (with_conn (Some ConnOpen) c2) in
                  inl (send ByRun (handshakeData c3) c3)
              end
          end
      end
  end.

(** [Run]. *)
Definition Run (addr : string) (ws : bool) (script : list turn) (c : Connector)
  : blocking :=
  match Run_start addr ws c with
  | inr (c1, err) => Returned c1 (Some err)
  | inl c1 => read script c1
  end.

(** ** Executions *)

(** A step of the connector after [Run] has connected it: the dispatch loop
    has fed a chunk to the decoder (which is left in state [d]), the
    dispatch loop handles one decoded packet, the dispatch loop's read
    fails and it calls [Close], or another goroutine acts. *)
Inductive step : Type :=
| Decoded (d : Decoder)
| Deliver (p : packet.Packet)
| ReadFailed
| Do (a : action).

Definition run_step (s : step) (c : Connector) : proc Connector :=
  match s with
  | Decoded d => Alive (with_codec d c)
  | Deliver p => processPacket c p
  | ReadFailed => Close c
  | Do a => act a c
  end.

Fixpoint exec (l : list step) (c : Connector) : proc Connector :=
  match l with
  | [] => Alive c
  | s :: rest => c1 ← run_step s c; exec rest c1
  end.

(** The step delivers a Handshake packet that unmarshals with code 200. *)
Definition handshake_ok (s : step) : bool :=
  match s with
  | Deliver p =>
      match packet.Typ p, json_Unmarshal (packet.Data_ p) with
      | packet.Handshake, inl h => Code h =? 200
      | _, _ => false
      end
  | _ => false
  end.

(** Heartbeat buffers in the send queue's history. *)
Definition from_ticker (f : sender * option bytes) : bool :=
  match fst f with ByTicker => true | _ => false end.

Definition heartbeats_sent (c : Connector) : nat :=
  length (List.filter from_ticker (chSend c)).

(** Calls of the connected callback made so far. *)
Definition is_connected_call (i : invocation) : bool :=
  match i with InvokeConnected _ => true | _ => false end.

Definition connected_calls (c : Connector) : nat :=
  length (List.filter is_connected_call (calls c)).

(** Heartbeat goroutines that are past the [IsClosed] test of a tick and
    have not sent yet. *)
Definition is_checked (t : ticker) : bool :=
  match at_pc t with TickerChecked => true | _ => false end.

Definition heartbeats_due (c : Connector) : nat :=
  length (List.filter is_checked (tickers c)).

(** [quiet c c']: going from [c] to [c'] sent no heartbeat, started no
    heartbeat goroutine and let none past its [IsClosed] test, made no call
    of the connected callback, left that callback as configured, and did
    not reopen the connector. *)
Definition quiet (c c' : Connector) : Prop :=
  heartbeats_sent c' = heartbeats_sent c ∧
  heartbeats_due c' = heartbeats_due c ∧
  (connecting c = false → connecting c' = false) ∧
  connectedCallback c' = connectedCallback c ∧
  length (tickers c') = length (tickers c) ∧
  connected_calls c' = connected_calls c.

(** How a step moves the heartbeats: either what was sent plus what is due
    stays the same and nothing sent is taken back, or one more heartbeat
    has become due, which only happens on an open connector. *)
Definition heartbeats_accounted (c c' : Connector) : Prop :=
  ((heartbeats_sent c' + heartbeats_due c'
    = heartbeats_sent c + heartbeats_due c)%nat ∧
   (heartbeats_sent c ≤ heartbeats_sent c')%nat) ∨
  (heartbeats_sent c' = heartbeats_sent c ∧
   heartbeats_due c' = S (heartbeats_due c) ∧
   IsClosed c = false).

End Connector_model.

(** ** A stand-in for the collaborators

    A small wire format to run the connector on concrete inputs: a chunk
    holds at most one packet, a tag byte followed by the payload; a message
    is a kind byte, an id byte and the data; a handshake response is the
    code on two bytes and the heartbeat interval on one. *)

Module Stub.

Definition tag (t : packet.Type_) : Byte.byte :=
  match t with
  | packet.Handshake => Byte.x01
  | packet.HandshakeAck => Byte.x02
  | packet.Heartbeat => Byte.x03
  | packet.Data => Byte.x04
  | packet.Kick => Byte.x05
  end.

Definition untag (b : Byte.byte) : option packet.Type_ :=
  match b with
  | Byte.x01 => Some packet.Handshake
  | Byte.x02 => Some packet.HandshakeAck
  | Byte.x03 => Some packet.Heartbeat
  | Byte.x04 => Some packet.Data
  | Byte.x05 => Some packet.Kick
  | _ => None
  end.

Definition num (b : Byte.byte) : Z := Z.of_N (Byte.to_N b).

Definition decode (d : unit) (chunk : bytes)
  : unit * (list packet.Packet + error) :=
  match chunk with
  | [] => (d, inl [])
  | b :: payload =>
      match untag b with
      | Some t =>
          (d, inl [ {| packet.Typ := t;
                       packet.Length := Z.of_nat (length payload);
                       packet.Data_ := payload |} ])
      | None => (d, inr "wrong packet type"%string)
      end
  end.

Definition encode (t : packet.Type_) (data : option bytes) : bytes + error :=
  inl (tag t :: default [] data).

Definition kind (t : message.Type_) : Byte.byte :=
  match t with
  | message.Request => Byte.x00
  | message.Notify => Byte.x01
  | message.Response => Byte.x02
  | message.Push => Byte.x03
  end.

Definition encode_message (m : message.Message) : bytes + error :=
  if String.eqb (message.Route m) "" then inr "empty route"%string
  else
    inl (kind (message.Typ m)
           :: default Byte.x00 (Byte.of_N (Z.to_N (message.ID m mod 256)))
           :: message.Data_ m).

Definition decode_message (b : bytes) : message.Message + error :=
  match b with
  | k :: i :: data =>
      let mk t := inl {| message.Typ := t; message.Route := "";
                         message.ID := num i; message.Data_ := data |} in
      match k with
      | Byte.x00 => mk message.Request
      | Byte.x01 => mk message.Notify
      | Byte.x02 => mk message.Response
      | Byte.x03 => mk message.Push
      | _ => inr "wrong message type"%string
      end
  | _ => inr "invalid message"%string
  end.

Definition unmarshal (b : bytes) : DefaultHandshakePacket + error :=
  match b with
  | [hi; lo; hb] =>
      inl {| Code := 256 * num hi + num lo; Sys := {| Heartbeat := num hb |} |}
  | _ => inr "unexpected end of JSON input"%string
  end.

Definition dial (addr : string) (ws : bool) : go_error :=
  if String.eqb addr "" then Some "dial: missing address"%string else None.

Definition externals : Externals :=
  {| Decoder := unit;
     codec_Decode := decode;
     codec_Encode := encode;
     message_Encode := encode_message;
     message_Decode := decode_message;
     value := bytes;
     json_Marshal := fun v => inl v;
     json_Unmarshal := unmarshal;
     Dial := dial |}.

(** A connector as a constructor leaves it: nothing configured, not
    connected, ids from 0. *)
Definition fresh : Connector (E := externals) :=
  @mkConnector externals None tt 0 false 0 [] None None None None ∅ ∅ [] []
    [].

(** [fresh] with a handshake payload and a connected callback set. *)
Definition configured : Connector (E := externals) :=
  Connected (Some (OnConnected 7))
    (fst (SetHandshake (E := externals) [Byte.x7b; Byte.x7d] fresh)).

(** [configured] as [Run] enters [read] with it. *)
Definition connected : Connector (E := externals) :=
  match Run_start (E := externals) "127.0.0.1:3250" false configured with
  | inl c => c
  | inr (c, _) => c
  end.

(** Chunks a server may send: handshake responses with code 200 (heartbeat
    every 3 seconds) and code 500, a kick, and a response to request 0. *)
Definition handshake_200 : bytes := [Byte.x01; Byte.x00; Byte.xc8; Byte.x03].
Definition handshake_500 : bytes := [Byte.x01; Byte.x01; Byte.xf4; Byte.x03].
Definition kick : bytes := [Byte.x05].
Definition response_0 : bytes := [Byte.x04; Byte.x02; Byte.x00; Byte.x6f; Byte.x6b].

Definition packet_of (chunk : bytes) : packet.Packet :=
  match chunk with
  | b :: payload =>
      {| packet.Typ := default packet.Heartbeat (untag b);
         packet.Length := Z.of_nat (length payload);
         packet.Data_ := payload |}
  | [] => {| packet.Typ := packet.Heartbeat; packet.Length := 0;
             packet.Data_ := [] |}
  end.

(** One iteration of the loop in which nothing else happens and [chunk] is
    read. *)
Definition receive (chunk : bytes) : turn :=
  {| during_sleep := []; read_result := inl chunk |}.

(** The connector after [steps], when the process survives them. *)
Definition after (steps : list (step (E := externals)))
  (c : Connector (E := externals)) : Connector (E := externals) :=
  match exec steps c with
  | Alive c' => c'
  | _ => c
  end.

(** A [Close()] of the caller that runs to its end with nothing in
    between, when no other call of the caller has gone past the test of the
    flag before. *)
Definition close_call : list action :=
  [DoClose; DoCloseNext 0; DoCloseNext 0; DoCloseNext 0].

(** One tick of the first heartbeat goroutine, test and send. *)
Definition tick : list action := [DoTick 0; DoTick 0].

(** [connected] after a successful handshake, one heartbeat and a
    [Close()] of the caller. *)
Definition closed : Connector (E := externals) :=
  after (Deliver (packet_of handshake_200) :: Do (DoTick 0%nat)
           :: map Do (tick ++ close_call))
    connected.

Definition addr : string := "127.0.0.1:3250".

End Stub.

(** ** The rest of connector.go *)

Section Connector_rest.
Context `{E : Externals}.

(** *** The handshake helpers *)

(** [map[string]interface{}], as the caller fills it. *)
Variable json_map : Type.

(** [SysOpts] and [HandshakeOpts]. *)
Record SysOpts : Type := { Version : string; Type_ : string; RSA : json_map }.
Record HandshakeOpts : Type := { Sys_ : SysOpts; UserData : json_map }.

(** [&HandshakeOpts{...}] and [&DefaultHandshakePacket{...}] passed as
    [interface{}]. *)
Variable box_opts : HandshakeOpts → value.
Variable box_ack : DefaultHandshakePacket → value.

(** [InitReqHandshake]. *)
Definition InitReqHandshake (version hType : string) (rsa userData : json_map)
  (c : Connector) : Connector * go_error :=
  SetHandshake
    (box_opts {| Sys_ := {| Version := version; Type_ := hType; RSA := rsa |};
                 UserData := userData |}) c.

(** [InitHandshakeACK]: the packet is built from constants. *)
Definition InitHandshakeACK (heartbeatDuration : Z) (c : Connector)
  : Connector * go_error :=
  let ackDataMap := {| Code := 200; Sys := {| Heartbeat := 1 |} |} in
  SetHandshakeAck (Some (box_ack ackDataMap)) c.

(** *** The writer goroutine *)

(** What one [select] of [write] receives: a buffer from [chSend], with
    what [c.conn.Write(data)] would return for it, or the teardown signal. *)
Inductive received : Type :=
| FromChSend (data : option bytes) (err : go_error)
| FromDie.

(** [write]: the buffers handed to [c.conn.Write], in order, and whether
    the goroutine has returned.  A write error is logged and nothing
    else. *)
Fixpoint write (c : Connector) (script : list received)
  : list (option bytes) * bool :=
  match script with
  | [] => ([], false)
  | FromChSend data err :: rest =>
      let (written, returned) := write c rest in
      match conn c with
      | Some _ => (data :: written, returned)
      | None => (written, returned)
      end
  | FromDie :: _ => ([], true)
  end.

(** The buffers of a script's [chSend] receptions. *)
Definition buffers (script : list received) : list (option bytes) :=
  omap (λ r, match r with FromChSend data _ => Some data | FromDie => None end)
    script.

Definition is_buffer (r : received) : bool :=
  match r with FromChSend _ _ => true | FromDie => false end.

(** *** What executions keep *)

(** [c.conn] is set whenever the connector is open. *)
Definition transport_held (c : Connector) : bool :=
  match connecting c, conn c with
  | true, None => false
  | _, _ => true
  end.

(** Buffers [sendMessage] put on the send queue. *)
Definition from_sendMessage (f : sender * option bytes) : bool :=
  match fst f with BySendMessage => true | _ => false end.

Definition messages_sent (c : Connector) : nat :=
  length (List.filter from_sendMessage (chSend c)).

(** [evolves c c']: what every step of the connector keeps.  The encoded
    payloads are those of [c]; a closed connector stays closed; a transport
    once set stays set; the send queue and the calls only grow; the id counter has moved by
    the number of messages put on the queue and stays a [uint]; and no nil
    buffer is queued unless a payload of [c] is nil. *)
Definition evolves (c c' : Connector) : Prop :=
  handshakeData c' = handshakeData c ∧
  handshakeAckData c' = handshakeAckData c ∧
  heartbeatData c' = heartbeatData c ∧
  (connecting c' = true → connecting c = true) ∧
  (is_Some (conn c) → is_Some (conn c')) ∧
  (∃ l, chSend c' = chSend c ++ l ∧
        uint (mid c') =
          uint (mid c + Z.of_nat (length (List.filter from_sendMessage l))) ∧
        (is_Some (handshakeAckData c) → is_Some (heartbeatData c) →
         Forall (λ f, is_Some (snd f)) l)) ∧
  (0 ≤ mid c < 2 ^ uint_size → 0 ≤ mid c' < 2 ^ uint_size) ∧
  (∃ l, calls c' = calls c ++ l).

End Connector_rest.

(** * Properties *)

Section Connector_facts.
Context `{E : Externals}.

Implicit Types (c : Connector) (msg : message.Message) (p : packet.Packet).

(** ** Sending *)

(** [setResponseHandler] touches the response registry only. *)
Lemma setResponseHandler_frame id cb c :
  mid (setResponseHandler id cb c) = mid c ∧
  chSend (setResponseHandler id cb c) = chSend c ∧
  calls (setResponseHandler id cb c) = calls c.
Proof. by destruct cb. Qed.

Lemma responses_setResponseHandler id cb c :
  responses (setResponseHandler id cb c) =
    match cb with
    | None => delete id (responses c)
    | Some f => <[id := f]> (responses c)
    end.
Proof. by destruct cb. Qed.

(** [sendMessage] either fails and leaves the connector as it was, or
    advances [mid] and hands one buffer to [send]. *)
Lemma sendMessage_cases msg c :
  (∃ e, sendMessage msg c = (c, Some e) ∧
        (message_Encode msg = inr e ∨
         ∃ b, message_Encode msg = inl b ∧
              codec_Encode packet.Data (Some b) = inr e)) ∨
  (∃ payload,
      sendMessage msg c =
        (send BySendMessage (Some payload) (with_mid (uint (mid c + 1)) c),
         None)).
Proof.
  unfold sendMessage.
  destruct (message_Encode msg) as [b | e] eqn:Hm.
  - destruct (codec_Encode packet.Data (Some b)) as [payload | e] eqn:Hc.
    + right. by exists payload.
    + left. exists e. split; [done | right]. by exists b.
  - left. exists e. split; [done | by left].
Qed.

(** C4, as amended. [Request] advances the message-id counter exactly once
    when it succeeds and leaves it where it was when it fails: ids are
    consumed by the sends that went through, not by the attempts. *)
Theorem Request_advances_mid_iff_sent route data callback c :
  match Request route data callback c with
  | (c', None) => mid c' = uint (mid c + 1)
  | (c', Some _) => mid c' = mid c
  end.
Proof.
  unfold Request.
  destruct (sendMessage_cases (request_message route data c)
              (setResponseHandler (mid c) callback c))
    as [(e & -> & _) | (payload & ->)].
  - by destruct callback.
  - by destruct callback.
Qed.

(** C6. A failed [Request] returns the encoding error, leaves no entry for
    its id in the response registry, has sent nothing and called nothing,
    and a later response carrying that id is dropped. *)
Theorem Request_failure_rolls_back route data callback c c' e :
  Request route data callback c = (c', Some e) →
  responses c' !! mid c = None ∧
  responses c' = delete (mid c) (responses c) ∧
  mid c' = mid c ∧ chSend c' = chSend c ∧ calls c' = calls c ∧
  (message_Encode (request_message route data c) = inr e ∨
   ∃ b, message_Encode (request_message route data c) = inl b ∧
        codec_Encode packet.Data (Some b) = inr e) ∧
  ∀ r d, processMessage c' (response_for (mid c) r d) = Alive c'.
Proof.
  unfold Request. intros H.
  destruct (sendMessage_cases (request_message route data c)
              (setResponseHandler (mid c) callback c))
    as [(e' & Hs & Hwhy) | (payload & Hs)]; rewrite Hs in H; [| done].
  cbv beta iota in H. injection H as Hc' <-.
  destruct (setResponseHandler_frame (mid c) callback c) as (Hmid & Hq & Hl).
  rewrite Hmid in Hc'.
  change (setResponseHandler (mid c) None
            (setResponseHandler (mid c) callback c) = c') in Hc'.
  destruct (setResponseHandler_frame (mid c) None
              (setResponseHandler (mid c) callback c)) as (Hmid' & Hq' & Hl').
  assert (Hreg : responses c' = delete (mid c) (responses c)).
  { rewrite <- Hc', !responses_setResponseHandler.
    destruct callback; [apply delete_insert_eq | apply delete_delete_eq]. }
  assert (Hnone : responses c' !! mid c = None)
    by (rewrite Hreg; apply lookup_delete_eq).
  rewrite Hc' in Hmid', Hq', Hl'.
  split; [done |]. split; [done |]. split; [congruence |].
  split; [congruence |]. split; [congruence |]. split; [done |].
  intros r d. unfold processMessage, responseHandler, response_for.
  cbn [message.Typ message.ID]. by rewrite Hnone.
Qed.

(** C10. A successful [Notify] advances the counter [Request] draws its
    ids from and registers nothing, so the next request is issued under the
    id after the one it would have had without the notification. *)
Theorem Notify_advances_mid route data c c' :
  Notify route data c = (c', None) →
  mid c' = uint (mid c + 1) ∧
  responses c' = responses c ∧
  ∀ route' data' cb,
    message.ID (request_message route' data' c') = uint (mid c + 1) ∧
    ∀ c'', Request route' data' (Some cb) c' = (c'', None) →
           responses c'' !! uint (mid c + 1) = Some cb.
Proof.
  unfold Notify. intros H.
  destruct (sendMessage_cases
              {| message.Typ := message.Notify; message.Route := route;
                 message.ID := 0; message.Data_ := data |} c)
    as [(e & Hs & _) | (payload & Hs)]; rewrite Hs in H; [done |].
  injection H as <-.
  split; [done |]. split; [done |].
  intros route' data' cb. split; [done |].
  intros c'' H. unfold Request in H.
  match type of H with
  | context [sendMessage ?m ?x] =>
      destruct (sendMessage_cases m x) as [(e & Hs' & _) | (p' & Hs')];
      rewrite Hs' in H
  end; [done |].
  injection H as <-. simpl. apply lookup_insert_eq.
Qed.

(** ** Responses *)

(** C5. After a successful [Request] its callback is registered under the
    id the request carries.  A response whose id has an entry calls that
    entry's callback once, with the response's payload, and removes the
    entry, so that the same response arriving again is dropped; a response
    whose id has no entry calls nothing and changes nothing. *)
Theorem Response_calls_back_once c route data cb c1 :
  Request route data (Some cb) c = (c1, None) →
  responses c1 !! mid c = Some cb ∧ calls c1 = calls c ∧
  (∀ c2 id f r d,
     responses c2 !! id = Some f →
     ∃ c3, processMessage c2 (response_for id r d) = Alive c3 ∧
           calls c3 = calls c2 ++ [InvokeCallback f d] ∧
           responses c3 = delete id (responses c2) ∧
           mid c3 = mid c2 ∧ chSend c3 = chSend c2 ∧
           connecting c3 = connecting c2 ∧
           processMessage c3 (response_for id r d) = Alive c3) ∧
  (∀ c2 id r d,
     responses c2 !! id = None →
     processMessage c2 (response_for id r d) = Alive c2).
Proof.
  intros H. unfold Request in H.
  match type of H with
  | context [sendMessage ?m ?x] =>
      destruct (sendMessage_cases m x) as [(e & Hs & _) | (payload & Hs)];
      rewrite Hs in H
  end; [done |].
  injection H as <-.
  split; [apply lookup_insert_eq |]. split; [done |]. split.
  - intros c2 id f r d Hf.
    unfold processMessage, responseHandler, response_for.
    cbn [message.Typ message.ID message.Data_]. rewrite Hf.
    eexists. split; [reflexivity |].
    repeat split. simpl. by rewrite lookup_delete_eq.
  - intros c2 id r d Hnone.
    unfold processMessage, responseHandler, response_for.
    cbn [message.Typ message.ID]. by rewrite Hnone.
Qed.

(** ** Fatal packets *)

(** C1. A Handshake packet whose response carries a code other than 200
    ends the process: [processPacket] calls [log.Fatal], and the
    [c.Close()] written after it is never reached.  Neither a closed
    connector nor an error from [Run] is ever observed. *)
Theorem bad_handshake_code_exits_process c p h :
  packet.Typ p = packet.Handshake →
  json_Unmarshal (packet.Data_ p) = inl h →
  Code h ≠ 200 →
  processPacket c p = Exited 1 ∧
  ∀ rest, processPackets c (p :: rest) = Exited 1.
Proof.
  intros Ht Hu Hcode.
  assert (Hp : processPacket c p = Exited 1).
  { unfold processPacket. rewrite Ht, Hu.
    by destruct (Z.eqb_spec (Code h) 200). }
  split; [done |]. intros rest. cbn [processPackets]. by rewrite Hp.
Qed.

(** C2. A Kick packet ends the process in the same way: [log.Fatal] runs
    before [c.Close()], so the connector is never closed and [Run] never
    returns. *)
Theorem kick_exits_process c p :
  packet.Typ p = packet.Kick →
  processPacket c p = Exited 1 ∧
  ∀ rest, processPackets c (p :: rest) = Exited 1.
Proof.
  intros Ht.
  assert (Hp : processPacket c p = Exited 1)
    by (unfold processPacket; by rewrite Ht).
  split; [done |]. intros rest. cbn [processPackets]. by rewrite Hp.
Qed.

(** ** The dispatch loop and [Run] *)




(** A step of another goroutine never reopens a closed connector. *)
Lemma Close_closed c c' : Close c = Alive c' → connecting c' = false.
Proof.
  unfold Close. destruct (connecting c) eqn:Hc; simpl.
  - destruct (conn c); [| done]. by intros [= <-].
  - by intros [= <-].
Qed.

(** [read] returns on a closed connector, with the closed-connector error
    or with a read error of the transport; never with nil. *)
Lemma read_returned script c c' r :
  read script c = Returned c' r →
  IsClosed c' = true ∧
  (r = Some "read err: connector is closed"%string ∨
   ∃ t e, t ∈ script ∧ read_result t = inr e ∧ r = Some e).
Proof.
  revert c. induction script as [| t rest IH]; intros c H; [done |].
  assert (Hlater : ∀ c2, read rest c2 = Returned c' r →
            IsClosed c' = true ∧
            (r = Some "read err: connector is closed"%string ∨
             ∃ t0 e, t0 ∈ t :: rest ∧ read_result t0 = inr e ∧ r = Some e)).
  { intros c2 H2. destruct (IH _ H2) as [Hcl [-> | (t0 & e & Hin & Hr & ->)]].
    - split; [done | by left].
    - split; [done | right]. exists t0, e. split; [by right | done]. }
  cbn [read] in H.
  destruct (acts (during_sleep t) c) as [c1 | |]; [| done | done].
  destruct (IsClosed c1) eqn:Hcl.
  - injection H as <- <-. split; [done | by left].
  - destruct (conn c1) as [k |]; [| done].
    destruct (read_result t) as [chunk | e] eqn:Hr.
    + destruct (codec_Decode (codec c1) chunk) as [d [packets | e]].
      * destruct (processPackets (with_codec d c1) packets) as [c3 | |];
          [| done | done].
        by eapply Hlater.
      * by eapply Hlater.
    + destruct (Close c1) as [c2 | |] eqn:HC; [| done | done].
      injection H as <- <-. split.
      * unfold IsClosed. by rewrite (Close_closed _ _ HC).
      * right. exists t, e. split; [by left | done].
Qed.

(** C3, as amended. Once [Run] has connected, it returns exactly when the
    dispatch loop does, with the loop's error; the connector is then closed
    and the error is never nil: it is either the closed-connector error,
    which is what an explicit [Close()] leads to, or the transport's read
    error. *)
Theorem Run_returns_the_loop_error addr ws script c c0 :
  Run_start addr ws c = inl c0 →
  Run addr ws script c = read script c0 ∧
  (∀ c' r,
     Run addr ws script c = Returned c' r →
     IsClosed c' = true ∧ r ≠ None ∧
     (r = Some "read err: connector is closed"%string ∨
      ∃ t e, t ∈ script ∧ read_result t = inr e ∧ r = Some e)) ∧
  (∀ t rest c1,
     script = t :: rest →
     acts (during_sleep t) c0 = Alive c1 → IsClosed c1 = true →
     Run addr ws script c =
       Returned c1 (Some "read err: connector is closed"%string)).
Proof.
  intros Hstart.
  assert (HRun : Run addr ws script c = read script c0)
    by (unfold Run; by rewrite Hstart).
  split; [done |]. split.
  - intros c' r H. rewrite HRun in H.
    destruct (read_returned _ _ _ _ H) as [Hcl Hr].
    split; [done |]. split; [| done].
    by destruct Hr as [-> | (? & ? & _ & _ & ->)].
  - intros t rest c1 -> Ha Hcl. rewrite HRun. cbn [read].
    by rewrite Ha, Hcl.
Qed.

(** ** Executions *)

Lemma quiet_refl c : quiet c c.
Proof. by repeat split. Qed.

Lemma quiet_trans c1 c2 c3 : quiet c1 c2 → quiet c2 c3 → quiet c1 c3.
Proof.
  intros (? & ? & ? & ? & ? & ?) (? & ? & ? & ? & ? & ?).
  repeat split; try congruence. auto.
Qed.

Lemma heartbeats_sent_send who data c :
  heartbeats_sent (send who data c) =
    (heartbeats_sent c + if from_ticker (who, data) then 1 else 0)%nat.
Proof.
  unfold heartbeats_sent, send. cbn [chSend with_chSend].
  rewrite List.filter_app, length_app. f_equal. by destruct who.
Qed.

Lemma connected_calls_app c l :
  connected_calls (with_calls (calls c ++ l) c) =
    (connected_calls c + length (List.filter is_connected_call l))%nat.
Proof.
  unfold connected_calls. cbn [calls with_calls].
  by rewrite List.filter_app, length_app.
Qed.

Lemma Close_quiet c c' : Close c = Alive c' → quiet c c'.
Proof.
  unfold Close. destruct (connecting c) eqn:Hc; simpl.
  - destruct (conn c); [| done]. intros [= <-]. by repeat split.
  - intros [= <-]. apply quiet_refl.
Qed.

Lemma Close_enter_quiet c : quiet c (Close_enter c).
Proof. unfold Close_enter. destruct (connecting c); by repeat split. Qed.

Lemma Close_next_quiet j c c' : Close_next j c = Alive c' → quiet c c'.
Proof.
  unfold Close_next.
  destruct (closers c !! j) as [[| | |] |]; try (intros [= <-]; by repeat split).
  destruct (conn c); [| done]. intros [= <-]. by repeat split.
Qed.

Lemma setResponseHandler_quiet id cb c : quiet c (setResponseHandler id cb c).
Proof. destruct cb; by repeat split. Qed.

Lemma sendMessage_quiet msg c : quiet c (fst (sendMessage msg c)).
Proof.
  destruct (sendMessage_cases msg c) as [(e & -> & _) | (payload & ->)].
  - apply quiet_refl.
  - cbn [fst]. split; [| by repeat split].
    rewrite heartbeats_sent_send. cbn. unfold heartbeats_sent. cbn. lia.
Qed.

Lemma Request_quiet route data callback c :
  quiet c (fst (Request route data callback c)).
Proof.
  unfold Request.
  pose proof (sendMessage_quiet (request_message route data c)
                (setResponseHandler (mid c) callback c)) as Hs.
  destruct (sendMessage (request_message route data c)
              (setResponseHandler (mid c) callback c)) as [c2 [e |]];
    cbn [fst] in *.
  - eapply quiet_trans; [apply setResponseHandler_quiet |].
    eapply quiet_trans; [exact Hs | apply setResponseHandler_quiet].
  - eapply quiet_trans; [apply setResponseHandler_quiet | exact Hs].
Qed.

Lemma invoke_quiet cb data c : quiet c (invoke cb data c).
Proof.
  unfold invoke. do 5 (split; [done |]).
  rewrite connected_calls_app. cbn. lia.
Qed.

Lemma processMessage_quiet c msg c' :
  processMessage c msg = Alive c' → quiet c c'.
Proof.
  unfold processMessage, eventHandler, responseHandler, call.
  destruct (message.Typ msg).
  - intros [= <-]. apply quiet_refl.
  - intros [= <-]. apply quiet_refl.
  - destruct (responses c !! message.ID msg) as [cb |].
    + intros [= <-].
      apply (quiet_trans _ (invoke cb (message.Data_ msg) c));
        [apply invoke_quiet
        | exact (setResponseHandler_quiet (message.ID msg) None
                   (invoke cb (message.Data_ msg) c))].
    + intros [= <-]. apply quiet_refl.
  - destruct (events c !! message.Route msg) as [[cb |] |].
    + intros [= <-]. apply invoke_quiet.
    + done.
    + intros [= <-]. apply quiet_refl.
Qed.

(** Moving one goroutine from where it stands to [pc]. *)
Lemma filter_insert_length {A} (f : A → bool) (l : list A) i x y :
  l !! i = Some x →
  (length (List.filter f (<[i := y]> l)) + Nat.b2n (f x)
   = length (List.filter f l) + Nat.b2n (f y))%nat.
Proof.
  revert i. induction l as [| a l IH]; intros [| i] H; try done.
  - injection H as ->. simpl. destruct (f x), (f y); simpl; lia.
  - specialize (IH i H). simpl. destruct (f a); simpl; lia.
Qed.

Lemma ticker_at_effect i pc t c :
  tickers c !! i = Some t →
  tickers (ticker_at i pc c)
    = <[i := {| seconds := seconds t; at_pc := pc |}]> (tickers c) ∧
  length (tickers (ticker_at i pc c)) = length (tickers c) ∧
  (heartbeats_due (ticker_at i pc c) + Nat.b2n (is_checked t)
   = heartbeats_due c
     + match pc with TickerChecked => 1 | _ => 0 end)%nat ∧
  chSend (ticker_at i pc c) = chSend c ∧
  calls (ticker_at i pc c) = calls c ∧
  connecting (ticker_at i pc c) = connecting c ∧
  connectedCallback (ticker_at i pc c) = connectedCallback c ∧
  heartbeatData (ticker_at i pc c) = heartbeatData c.
Proof.
  intros Ht. unfold ticker_at. rewrite Ht. cbn.
  split; [done |]. split; [apply length_insert |]. split; [| done].
  unfold heartbeats_due. cbn.
  rewrite (filter_insert_length is_checked _ _ _
             {| seconds := seconds t; at_pc := pc |} Ht).
  by destruct pc.
Qed.

Lemma quiet_accounted c c' : quiet c c' → heartbeats_accounted c c'.
Proof. intros (Hs & Hd & _). left. rewrite Hs, Hd. split; [done | lia]. Qed.

(** A statement of a heartbeat goroutine sends at most one heartbeat, and
    only one that was due; a heartbeat becomes due only on an open
    connector. *)
Lemma ticker_step_effect i c c' :
  ticker_step i c = Alive c' →
  (connecting c = false → connecting c' = false) ∧
  connectedCallback c' = connectedCallback c ∧
  length (tickers c') = length (tickers c) ∧
  connected_calls c' = connected_calls c ∧
  heartbeats_accounted c c'.
Proof.
  unfold ticker_step.
  destruct (tickers c !! i) as [t |] eqn:Ht;
    [| intros [= <-]; do 4 (split; [done |]); apply quiet_accounted,
         quiet_refl].
  assert (Hsame : ∀ pc,
    pc ≠ TickerChecked → is_checked t = false →
    (connecting c = false → connecting (ticker_at i pc c) = false) ∧
    connectedCallback (ticker_at i pc c) = connectedCallback c ∧
    length (tickers (ticker_at i pc c)) = length (tickers c) ∧
    connected_calls (ticker_at i pc c) = connected_calls c ∧
    heartbeats_accounted c (ticker_at i pc c)).
  { intros pc Hpc Hnot.
    destruct (ticker_at_effect i pc t c Ht)
      as (_ & Hl & Hd & Hq & Hcalls & Hc & Hcb & _).
    split; [congruence |]. split; [done |]. split; [done |].
    split; [unfold connected_calls; by rewrite Hcalls |].
    left. unfold heartbeats_sent. rewrite Hq. rewrite Hnot in Hd.
    destruct pc; cbn in Hd; try done; lia. }
  destruct (at_pc t) eqn:Hpc.
  - destruct (ticker_period (seconds t) <=? 0); [done |].
    intros [= <-]. apply Hsame; [done |]. unfold is_checked. by rewrite Hpc.
  - destruct (IsClosed c) eqn:Hcl; intros [= <-].
    + apply Hsame; [done |]. unfold is_checked. by rewrite Hpc.
    + destruct (ticker_at_effect i TickerChecked t c Ht)
        as (_ & Hl & Hd & Hq & Hcalls & Hc & Hcb & _).
      split; [congruence |]. split; [done |]. split; [done |].
      split; [unfold connected_calls; by rewrite Hcalls |].
      right. unfold heartbeats_sent. rewrite Hq.
      split; [done |]. split; [| done].
      unfold is_checked in Hd. rewrite Hpc in Hd. cbn in Hd. lia.
  - intros [= <-].
    destruct (ticker_at_effect i TickerWaiting t c Ht)
      as (_ & Hl & Hd & Hq & Hcalls & Hc & Hcb & _).
    split; [cbn; congruence |]. split; [done |]. split; [done |].
    split; [unfold connected_calls; cbn; by rewrite Hcalls |].
    left. rewrite heartbeats_sent_send. cbn [from_ticker fst].
    unfold is_checked in Hd. rewrite Hpc in Hd. cbn in Hd.
    assert (Hd' : heartbeats_due
                    (send ByTicker (heartbeatData c)
                       (ticker_at i TickerWaiting c))
                  = heartbeats_due (ticker_at i TickerWaiting c)) by done.
    assert (Hs' : heartbeats_sent (ticker_at i TickerWaiting c)
                  = heartbeats_sent c)
      by (unfold heartbeats_sent; by rewrite Hq).
    rewrite Hd', Hs'. lia.
  - intros [= <-]. do 4 (split; [done |]). apply quiet_accounted, quiet_refl.
Qed.

(** A packet that is not a successful handshake is handled quietly; a
    successful handshake starts one more heartbeat goroutine, sends the
    acknowledgement and calls the connected callback, if any, once. *)
Lemma processPacket_effect c p c' :
  processPacket c p = Alive c' →
  if handshake_ok (Deliver p) then
    heartbeats_sent c' = heartbeats_sent c ∧
    heartbeats_due c' = heartbeats_due c ∧
    connecting c' = connecting c ∧
    connectedCallback c' = connectedCallback c ∧
    tickers c' = tickers c ++
      [{| seconds :=
            match json_Unmarshal (packet.Data_ p) with
            | inl h => Heartbeat (Sys h)
            | inr _ => 0
            end;
          at_pc := TickerStarting |}] ∧
    chSend c' = chSend c ++ [(ByHandshake, handshakeAckData c)] ∧
    calls c' = calls c ++
      match connectedCallback c with
      | Some f => [InvokeConnected f]
      | None => []
      end
  else quiet c c'.
Proof.
  unfold processPacket, handshake_ok.
  destruct (packet.Typ p).
  - destruct (json_Unmarshal (packet.Data_ p)) as [h | e].
    + destruct (Code h =? 200); [| done].
      cbn [connectedCallback send with_chSend go_heartbeat with_tickers].
      assert (Hs : ∀ l : list (sender * option bytes),
                length (List.filter from_ticker
                          (l ++ [(ByHandshake, handshakeAckData c)]))
                = length (List.filter from_ticker l)).
      { intros l. rewrite List.filter_app. cbn. by rewrite app_nil_r. }
      assert (Hd : ∀ l : list ticker,
                length (List.filter is_checked
                          (l ++ [{| seconds := Heartbeat (Sys h);
                                    at_pc := TickerStarting |}]))
                = length (List.filter is_checked l)).
      { intros l. rewrite List.filter_app. cbn. by rewrite app_nil_r. }
      destruct (connectedCallback c) as [f |] eqn:Hf; intros [= <-].
      * unfold invoke_connected, heartbeats_sent, heartbeats_due. cbn.
        rewrite Hf, Hs, Hd. by repeat split.
      * unfold heartbeats_sent, heartbeats_due. cbn.
        rewrite Hf, Hs, Hd. repeat split. by rewrite app_nil_r.
    + apply Close_quiet.
  - intros [= <-]. apply quiet_refl.
  - intros [= <-]. apply quiet_refl.
  - destruct (message_Decode (packet.Data_ p)) as [msg | e].
    + apply processMessage_quiet.
    + intros [= <-]. apply quiet_refl.
  - done.
Qed.

(** What an action of another goroutine can do. *)
Lemma act_effect a c c' :
  act a c = Alive c' →
  (connecting c = false → connecting c' = false) ∧
  connectedCallback c' = connectedCallback c ∧
  length (tickers c') = length (tickers c) ∧
  connected_calls c' = connected_calls c ∧
  heartbeats_accounted c c'.
Proof.
  assert (Hq : ∀ c2, quiet c c2 →
            (connecting c = false → connecting c2 = false) ∧
            connectedCallback c2 = connectedCallback c ∧
            length (tickers c2) = length (tickers c) ∧
            connected_calls c2 = connected_calls c ∧
            heartbeats_accounted c c2).
  { intros c2 Hquiet. pose proof (quiet_accounted _ _ Hquiet).
    by destruct Hquiet as (? & ? & ? & ? & ? & ?). }
  destruct a as [| j | route data callback | route data | event callback | i];
    cbn [act].
  - intros [= <-]. apply Hq, Close_enter_quiet.
  - intros H. by apply Hq, (Close_next_quiet j).
  - intros [= <-]. apply Hq, Request_quiet.
  - intros [= <-]. apply Hq. unfold Notify. apply sendMessage_quiet.
  - intros [= <-]. apply Hq. by repeat split.
  - apply ticker_step_effect.
Qed.

(** What one step of an execution can do to the heartbeat goroutines, the
    heartbeats sent, the connected callback and the life-cycle flag. *)
Lemma run_step_effect s c c' :
  run_step s c = Alive c' →
  (connecting c = false → connecting c' = false) ∧
  connectedCallback c' = connectedCallback c ∧
  (handshake_ok s = false → length (tickers c') = length (tickers c)) ∧
  connected_calls c' =
    (connected_calls c +
     if handshake_ok s
     then match connectedCallback c with Some _ => 1 | None => 0 end
     else 0)%nat ∧
  heartbeats_accounted c c'.
Proof.
  assert (Hq : ∀ s0 c2, handshake_ok s0 = false → quiet c c2 →
            (connecting c = false → connecting c2 = false) ∧
            connectedCallback c2 = connectedCallback c ∧
            (handshake_ok s0 = false →
             length (tickers c2) = length (tickers c)) ∧
            connected_calls c2 =
              (connected_calls c +
               if handshake_ok s0
               then match connectedCallback c with Some _ => 1 | None => 0 end
               else 0)%nat ∧
            heartbeats_accounted c c2).
  { intros s0 c2 -> Hquiet. pose proof (quiet_accounted _ _ Hquiet).
    destruct Hquiet as (? & ? & ? & ? & ? & ?).
    do 3 (split; [done |]). split; [lia | done]. }
  destruct s as [d | p | | a]; cbn [run_step].
  - intros [= <-]. apply Hq; [done | by repeat split].
  - intros H. pose proof (processPacket_effect _ _ _ H) as Hp.
    destruct (handshake_ok (Deliver p)) eqn:Hok.
    + destruct Hp as (Hh & Hdue & Hc & Hcb & _ & _ & Hcalls).
      split; [congruence |]. split; [done |]. split; [done |].
      split; [| left; split; [congruence | lia]].
      unfold connected_calls. rewrite Hcalls, List.filter_app, length_app.
      by destruct (connectedCallback c).
    + pose proof (Hq (Deliver p) c' Hok Hp) as HH. by rewrite Hok in HH.
  - intros H. apply Hq; [done | by apply Close_quiet].
  - intros H. destruct (act_effect _ _ _ H) as (? & ? & ? & ? & ?).
    cbn [handshake_ok]. do 3 (split; [done |]). split; [lia | done].
Qed.

(** C7, as amended. In an execution that starts with no heartbeat
    goroutine, no heartbeat is sent as long as no Handshake packet with
    code 200 has been handled.  Every tick tests [IsClosed] before it
    sends, but nothing ties the send to the test: once the connector is
    closed, by [Close] or by a failed read, it stays closed, and the
    heartbeats sent from then on are those of goroutines that were already
    past their test, one each at most; a goroutine whose tick comes after
    the close returns without sending. *)
Theorem heartbeats_after_close_were_already_due steps c c' :
  exec steps c = Alive c' →
  (tickers c = [] →
   forallb (λ s, negb (handshake_ok s)) steps = true →
   heartbeats_sent c' = heartbeats_sent c ∧ tickers c' = []) ∧
  (IsClosed c = true →
   IsClosed c' = true ∧
   (heartbeats_sent c' + heartbeats_due c'
    = heartbeats_sent c + heartbeats_due c)%nat ∧
   (heartbeats_sent c ≤ heartbeats_sent c')%nat) ∧
  (∀ c0, Close c0 = Alive c → IsClosed c = true) ∧
  (∀ j c0, closers c0 !! j = Some CloseFlag →
           Close_next j c0 = Alive c → IsClosed c = true) ∧
  (∀ i t, tickers c !! i = Some t → at_pc t = TickerWaiting →
          IsClosed c = true →
          ∃ c1, ticker_step i c = Alive c1 ∧ chSend c1 = chSend c ∧
                tickers c1 !! i
                  = Some {| seconds := seconds t; at_pc := TickerReturned |}).
Proof.
  intros H. cut (
    (tickers c = [] →
     forallb (λ s, negb (handshake_ok s)) steps = true →
     heartbeats_sent c' = heartbeats_sent c ∧ tickers c' = []) ∧
    (IsClosed c = true →
     IsClosed c' = true ∧
     (heartbeats_sent c' + heartbeats_due c'
      = heartbeats_sent c + heartbeats_due c)%nat ∧
     (heartbeats_sent c ≤ heartbeats_sent c')%nat)).
  { intros (? & ?). split; [done |]. split; [done |]. split; [| split].
    - intros c0 HC. unfold IsClosed. by rewrite (Close_closed _ _ HC).
    - intros j c0 Hj HC. unfold Close_next in HC. rewrite Hj in HC.
      by injection HC as <-.
    - intros i t Ht Hpc Hcl. unfold ticker_step. rewrite Ht, Hpc, Hcl.
      eexists. split; [done |].
      destruct (ticker_at_effect i TickerReturned t c Ht)
        as (-> & _ & _ & -> & _).
      split; [done |]. apply list_lookup_insert_eq.
      by eapply lookup_lt_Some. }
  revert c H. induction steps as [| s rest IH]; intros c H.
  - injection H as <-. split; [done |]. intros Hcl. split; [done |]. lia.
  - cbn [exec] in H.
    destruct (run_step s c) as [c1 | |] eqn:Hs; [| done | done].
    change (exec rest c1 = Alive c') in H.
    destruct (IH _ H) as (IHquiet & IHclosed).
    destruct (run_step_effect _ _ _ Hs) as (Hconn & _ & Hlen & _ & Hsent).
    split.
    + intros Hnil Hall. cbn [forallb] in Hall.
      apply andb_prop in Hall as [Hnot Hall].
      apply negb_true_iff in Hnot.
      assert (Hnil1 : tickers c1 = []).
      { apply length_zero_iff_nil. rewrite (Hlen Hnot), Hnil. done. }
      destruct (IHquiet Hnil1 Hall) as (-> & ->).
      split; [| done].
      unfold heartbeats_accounted, heartbeats_due in Hsent.
      rewrite Hnil, Hnil1 in Hsent. cbn in Hsent.
      destruct Hsent as [[? ?] | (_ & ? & _)]; [lia | done].
    + intros Hcl. unfold IsClosed in Hcl.
      assert (Hc : connecting c = false) by (by destruct (connecting c)).
      assert (Hcl1 : IsClosed c1 = true)
        by (unfold IsClosed; by rewrite (Hconn Hc)).
      destruct (IHclosed Hcl1) as (-> & Hsum & Hle).
      split; [done |].
      destruct Hsent as [[? ?] | (_ & _ & Hopen)]; [lia |].
      unfold IsClosed in Hopen. by rewrite Hc in Hopen.
Qed.

(** The send of a heartbeat goroutine that is past its test. *)
Lemma ticker_step_sends i t c :
  tickers c !! i = Some t → at_pc t = TickerChecked →
  ticker_step i c
    = Alive (send ByTicker (heartbeatData c) (ticker_at i TickerWaiting c)).
Proof. intros Ht Hpc. unfold ticker_step. by rewrite Ht, Hpc. Qed.

(** A Handshake packet with code 200 is handled without failure. *)
Lemma processPacket_handshake_ok c p :
  handshake_ok (Deliver p) = true → ∃ c', processPacket c p = Alive c'.
Proof.
  unfold handshake_ok, processPacket.
  destruct (packet.Typ p); try done.
  destruct (json_Unmarshal (packet.Data_ p)) as [h | e]; [| done].
  intros ->. destruct (connectedCallback _); by eexists.
Qed.

(** C8, as amended. With a connected callback configured, every Handshake
    packet with code 200 that is handled calls it exactly once, the first
    one and any later one alike, and nothing else calls it: after an
    execution it has been called as many times as such packets were
    handled. *)
Theorem connected_callback_runs_per_successful_handshake steps c c' f :
  connectedCallback c = Some f →
  exec steps c = Alive c' →
  connected_calls c' =
    (connected_calls c + length (List.filter handshake_ok steps))%nat ∧
  connectedCallback c' = Some f ∧
  ∀ p, handshake_ok (Deliver p) = true →
       ∃ c'', processPacket c' p = Alive c'' ∧
              calls c'' = calls c' ++ [InvokeConnected f].
Proof.
  intros Hf H.
  assert (Hmain : connected_calls c' =
            (connected_calls c + length (List.filter handshake_ok steps))%nat ∧
          connectedCallback c' = Some f).
  { revert c Hf H. induction steps as [| s rest IH]; intros c Hf H.
    - injection H as <-. split; [cbn; lia | done].
    - cbn [exec] in H.
      destruct (run_step s c) as [c1 | |] eqn:Hs; [| done | done].
      change (exec rest c1 = Alive c') in H.
      destruct (run_step_effect _ _ _ Hs) as (_ & Hcb & _ & Hcalls & _).
      rewrite Hf in Hcb, Hcalls.
      destruct (IH _ Hcb H) as (-> & ->). split; [| done].
      rewrite Hcalls. cbn [List.filter].
      destruct (handshake_ok s); cbn [length]; lia. }
  destruct Hmain as (Hn & Hf'). do 2 (split; [done |]).
  intros p Hp. destruct (processPacket_handshake_ok c' p Hp) as [c'' Hc''].
  exists c''. split; [done |].
  pose proof (processPacket_effect _ _ _ Hc'') as He.
  rewrite Hp in He. destruct He as (_ & _ & _ & _ & _ & _ & ->).
  by rewrite Hf'.
Qed.

(** ** The dispatch loop as an execution *)

Lemma exec_app l1 l2 c :
  exec (l1 ++ l2) c = c1 ← exec l1 c; exec l2 c1.
Proof.
  revert c. induction l1 as [| s l1 IH]; intros c; [done |].
  cbn [app exec]. destruct (run_step s c) as [c1 | |]; [apply IH | done | done].
Qed.

Lemma acts_exec l c : acts l c = exec (map Do l) c.
Proof.
  revert c. induction l as [| a l IH]; intros c; [done |].
  cbn [acts map exec run_step]. destruct (act a c); [apply IH | done | done].
Qed.

Lemma processPackets_exec l c : processPackets c l = exec (map Deliver l) c.
Proof.
  revert c. induction l as [| p l IH]; intros c; [done |].
  cbn [processPackets map exec run_step].
  destruct (processPacket c p); [apply IH | done | done].
Qed.

(** Whatever state [read] leaves the connector in, an execution reaches. *)
Lemma read_exec script c c' :
  (∃ r, read script c = Returned c' r) ∨ read script c = Reading c' →
  ∃ steps, exec steps c = Alive c'.
Proof.
  revert c. induction script as [| t rest IH]; intros c H.
  - exists []. destruct H as [[r H] | H]; [done | by injection H as <-].
  - cbn [read] in H. rewrite acts_exec in H.
    destruct (exec (map Do (during_sleep t)) c) as [c1 | |] eqn:Ha;
      [| by destruct H as [[? ?] | ?] ..].
    assert (Hthen : ∀ more c2,
              exec more c1 = Alive c2 →
              (∃ r, read rest c2 = Returned c' r) ∨ read rest c2 = Reading c' →
              ∃ steps, exec steps c = Alive c').
    { intros more c2 Hmore Hrest. destruct (IH _ Hrest) as [steps Hsteps].
      exists (map Do (during_sleep t) ++ more ++ steps).
      rewrite exec_app, Ha. cbn. by rewrite exec_app, Hmore. }
    destruct (IsClosed c1).
    { exists (map Do (during_sleep t)).
      destruct H as [[r H] | H]; [by injection H as <- _ | done]. }
    destruct (conn c1); [| by destruct H as [[? ?] | ?]].
    destruct (read_result t) as [chunk | e].
    + destruct (codec_Decode (codec c1) chunk) as [d [packets | e]].
      * rewrite processPackets_exec in H.
        destruct (exec (map Deliver packets) (with_codec d c1))
          as [c3 | |] eqn:Hp; [| by destruct H as [[? ?] | ?] ..].
        apply (Hthen (Decoded d :: map Deliver packets) c3); [| done].
        cbn [exec run_step]. exact Hp.
      * by apply (Hthen [Decoded d] (with_codec d c1)).
    + destruct (Close c1) as [c2 | |] eqn:HC;
        [| by destruct H as [[? ?] | ?] ..].
      exists (map Do (during_sleep t) ++ [ReadFailed]).
      rewrite exec_app, Ha. cbn. rewrite HC. cbn.
      destruct H as [[r H] | H]; [by injection H as <- _ | done].
Qed.

End Connector_facts.

(** * The properties on concrete runs *)

Section Concrete_runs.

Local Existing Instance Stub.externals.

(** The server answers the handshake with [{"code":500,...}]: the process
    exits inside [processPacket], and so inside [Run]. *)
Lemma bad_handshake_code_exits_process_witness :
  processPacket Stub.connected (Stub.packet_of Stub.handshake_500) = Exited 1 ∧
  Run Stub.addr false [Stub.receive Stub.handshake_500] Stub.configured
    = Died (Exited 1).
Proof.
  split; [| reflexivity].
  refine (proj1 (bad_handshake_code_exits_process Stub.connected
                   (Stub.packet_of Stub.handshake_500)
                   {| Code := 500; Sys := {| Heartbeat := 3 |} |} _ _ _)).
  - reflexivity.
  - reflexivity.
  - simpl. lia.
Defined.

(** The server kicks the client right after a successful handshake. *)
Lemma kick_exits_process_witness :
  processPacket Stub.connected (Stub.packet_of Stub.kick) = Exited 1 ∧
  Run Stub.addr false [Stub.receive Stub.handshake_200; Stub.receive Stub.kick]
    Stub.configured = Died (Exited 1).
Proof.
  split; [| reflexivity].
  refine (proj1 (kick_exits_process Stub.connected
                   (Stub.packet_of Stub.kick) _)).
  reflexivity.
Defined.

(** The caller closes the connector while the loop sleeps: [Run] returns,
    and what it returns is an error, not nil. *)
Lemma Run_after_Close_returns_an_error :
  ∃ c', Run Stub.addr false
          [Stub.receive Stub.handshake_200;
           {| during_sleep := Stub.close_call; read_result := inl [] |}]
          Stub.configured
        = Returned c' (Some "read err: connector is closed"%string) ∧
        IsClosed c' = true.
Proof. eexists. split; [vm_compute; reflexivity | reflexivity]. Defined.

Lemma Run_returns_the_loop_error_witness :
  Run_start Stub.addr false Stub.configured = inl Stub.connected ∧
  Run Stub.addr false [{| during_sleep := Stub.close_call; read_result := inl [] |}]
    Stub.configured
  = read [{| during_sleep := Stub.close_call; read_result := inl [] |}]
      Stub.connected.
Proof.
  split; [reflexivity |].
  refine (proj1 (Run_returns_the_loop_error Stub.addr false _ Stub.configured
                   Stub.connected _)).
  reflexivity.
Defined.

(** A request whose route cannot be encoded: the call fails and the
    counter stays at 0, where one advance would have made it 1. *)
Lemma Request_failure_keeps_mid :
  snd (Request "" [] (Some (Fn 1)) Stub.connected) = Some "empty route"%string ∧
  mid Stub.connected = 0 ∧
  mid (fst (Request "" [] (Some (Fn 1)) Stub.connected)) = 0 ∧
  uint (mid Stub.connected + 1) = 1.
Proof. repeat split. Defined.

Lemma Request_failure_rolls_back_witness :
  Request "" [] (Some (Fn 1)) Stub.connected
    = (Stub.connected, Some "empty route"%string) ∧
  responses (fst (Request "" [] (Some (Fn 1)) Stub.connected)) !! 0 = None.
Proof.
  split; [reflexivity |].
  refine (proj1 (Request_failure_rolls_back "" [] (Some (Fn 1)) Stub.connected
                   _ "empty route"%string _)).
  reflexivity.
Defined.

(** A notification, then the first request: the request is issued under
    id 1, although no request was issued before it. *)
Lemma Notify_advances_mid_witness :
  mid Stub.connected = 0 ∧
  mid (fst (Notify "room.message" [] Stub.connected)) = 1 ∧
  message.ID (request_message "room.join" []
                (fst (Notify "room.message" [] Stub.connected))) = 1.
Proof.
  split; [reflexivity |].
  destruct (Notify_advances_mid "room.message" [] Stub.connected
              (fst (Notify "room.message" [] Stub.connected)) eq_refl)
    as (Hmid & _ & Hnext).
  split; [exact Hmid |].
  exact (proj1 (Hnext "room.join" [] (Fn 1))).
Defined.

(** The first request (id 0) and its response: the callback receives the
    payload once and the entry is gone. *)
Lemma Response_calls_back_once_witness :
  ∃ c1 c3,
    Request "room.join" [] (Some (Fn 1)) Stub.connected = (c1, None) ∧
    responses c1 !! 0 = Some (Fn 1) ∧
    processMessage c1 (response_for 0 "" [Byte.x6f; Byte.x6b]) = Alive c3 ∧
    calls c3 = [InvokeCallback (Fn 1) [Byte.x6f; Byte.x6b]] ∧
    responses c3 !! 0 = None ∧
    processMessage c3 (response_for 0 "" [Byte.x6f; Byte.x6b]) = Alive c3.
Proof.
  destruct (Response_calls_back_once Stub.connected "room.join" [] (Fn 1)
              (fst (Request "room.join" [] (Some (Fn 1)) Stub.connected))
              eq_refl)
    as (Hreg & _ & Hfound & _).
  destruct (Hfound _ 0 (Fn 1) ""%string [Byte.x6f; Byte.x6b] Hreg)
    as (c3 & Hp & Hcalls & Hresp & _ & _ & _ & Hagain).
  eexists _, c3. split; [reflexivity |]. split; [exact Hreg |].
  split; [exact Hp |]. split; [exact Hcalls |].
  split; [| exact Hagain].
  rewrite Hresp. apply lookup_delete_eq.
Defined.


(** The heartbeat goroutine is past its test when the caller closes the
    connector; its send comes after [Close()] has returned. *)
Lemma heartbeat_sent_after_Close :
  ∃ c1 c2,
    exec (Deliver (Stub.packet_of Stub.handshake_200)
            :: map Do ([DoTick 0%nat; DoTick 0%nat] ++ Stub.close_call))
      Stub.connected = Alive c1 ∧
    IsClosed c1 = true ∧ heartbeats_sent c1 = 0%nat ∧
    exec [Do (DoTick 0%nat)] c1 = Alive c2 ∧
    IsClosed c2 = true ∧ heartbeats_sent c2 = 1%nat.
Proof.
  eexists. eexists.
  split; [vm_compute; reflexivity |].
  split; [reflexivity |]. split; [reflexivity |].
  split; [vm_compute; reflexivity |].
  split; reflexivity.
Defined.

(** Before any handshake, steps of goroutines and requests send no
    heartbeat.  After the handshake, one heartbeat and a [Close()], no
    goroutine is past its test, and ticks and notifications add no
    heartbeat. *)
Lemma heartbeats_after_close_were_already_due_witness :
  heartbeats_sent
    (Stub.after [Do (DoTick 0%nat);
                 Do (DoRequest "room.join" [] (Some (Fn 1)));
                 Do (DoTick 0%nat)] Stub.connected) = 0%nat ∧
  heartbeats_sent Stub.closed = 1%nat ∧
  heartbeats_due Stub.closed = 0%nat ∧
  IsClosed (Stub.after [Do (DoTick 0%nat);
                        Do (DoNotify "room.message" []);
                        Do (DoTick 0%nat)] Stub.closed) = true ∧
  (heartbeats_sent (Stub.after [Do (DoTick 0%nat);
                                Do (DoNotify "room.message" []);
                                Do (DoTick 0%nat)] Stub.closed)
   + heartbeats_due (Stub.after [Do (DoTick 0%nat);
                                 Do (DoNotify "room.message" []);
                                 Do (DoTick 0%nat)] Stub.closed)
   = 1 + 0)%nat.
Proof.
  split; [| split; [reflexivity | split; [reflexivity |]]].
  - destruct (heartbeats_after_close_were_already_due
                [Do (DoTick 0%nat);
                 Do (DoRequest "room.join" [] (Some (Fn 1)));
                 Do (DoTick 0%nat)] Stub.connected _ eq_refl)
      as (Hbefore & _).
    exact (proj1 (Hbefore eq_refl eq_refl)).
  - destruct (heartbeats_after_close_were_already_due
                [Do (DoTick 0%nat);
                 Do (DoNotify "room.message" []);
                 Do (DoTick 0%nat)] Stub.closed _ eq_refl)
      as (_ & Hafter & _).
    destruct (Hafter eq_refl) as (Hcl & Hsum & _).
    split; [exact Hcl | exact Hsum].
Defined.

(** The server sends a second handshake response with code 200: the
    connected callback is called a second time. *)
Lemma second_handshake_calls_connected_again :
  ∃ c', Run Stub.addr false
          [Stub.receive Stub.handshake_200; Stub.receive Stub.handshake_200]
          Stub.configured
        = Reading c' ∧
        calls c' = [InvokeConnected (OnConnected 7);
                    InvokeConnected (OnConnected 7)] ∧
        connected_calls c' = 2%nat.
Proof. eexists. split; [vm_compute; reflexivity | split; reflexivity]. Defined.

Lemma connected_callback_runs_per_successful_handshake_witness :
  connected_calls
    (Stub.after [Deliver (Stub.packet_of Stub.handshake_200);
                 Deliver (Stub.packet_of Stub.response_0);
                 Do (DoTick 0%nat)] Stub.connected) = 1%nat.
Proof.
  exact (proj1 (connected_callback_runs_per_successful_handshake
                  [Deliver (Stub.packet_of Stub.handshake_200);
                   Deliver (Stub.packet_of Stub.response_0);
                   Do (DoTick 0%nat)] Stub.connected _ (OnConnected 7)
                  eq_refl eq_refl)).
Defined.

End Concrete_runs.

(** * More properties *)

Section Connector_more_facts.
Context `{E : Externals}.

Implicit Types (c : Connector) (msg : message.Message) (p : packet.Packet).

(** ** What every step keeps *)

Lemma uint_range z : 0 ≤ uint z < 2 ^ uint_size.
Proof. unfold uint. apply Z.mod_pos_bound. by compute. Qed.

Lemma uint_uint_add z n : uint (uint z + n) = uint (z + n).
Proof. unfold uint. apply Zplus_mod_idemp_l. Qed.

(** A step that leaves the life-cycle, the payloads, the queue and the
    counter alone, and may have made calls. *)
Lemma evolves_calls c c' l :
  conn c' = conn c → mid c' = mid c → connecting c' = connecting c →
  die c' = die c → chSend c' = chSend c →
  handshakeData c' = handshakeData c →
  handshakeAckData c' = handshakeAckData c →
  heartbeatData c' = heartbeatData c →
  calls c' = calls c ++ l →
  evolves c c'.
Proof.
  intros Hconn Hmid Hcg Hdie Hq Hh Ha Hb Hcalls.
  unfold evolves. rewrite Hconn, Hmid, Hcg, Hq, Hh, Ha, Hb.
  do 5 (split; [done |]). split; [| split; [done | by exists l]].
  exists []. rewrite app_nil_r. split; [done |]. split; [| done].
  cbn. by rewrite Z.add_0_r.
Qed.

Lemma evolves_refl c : evolves c c.
Proof. apply (evolves_calls c c []); try done. by rewrite app_nil_r. Qed.

Lemma evolves_trans c1 c2 c3 : evolves c1 c2 → evolves c2 c3 → evolves c1 c3.
Proof.
  intros (Hh1 & Ha1 & Hb1 & Hc1 & Ht1 & (l1 & Hq1 & Hm1 & Hn1) & Hr1
          & (k1 & Hk1))
         (Hh2 & Ha2 & Hb2 & Hc2 & Ht2 & (l2 & Hq2 & Hm2 & Hn2) & Hr2
          & (k2 & Hk2)).
  unfold evolves.
  split; [congruence |]. split; [congruence |]. split; [congruence |].
  split; [auto |]. split; [auto |].
  split; [| split; [auto |]].
  - exists (l1 ++ l2). split; [by rewrite Hq2, Hq1, app_assoc |]. split.
    + rewrite Hm2, <- uint_uint_add, Hm1, uint_uint_add.
      rewrite List.filter_app, length_app. f_equal. lia.
    + intros Hack Hbeat. apply Forall_app. split; [by apply Hn1 |].
      apply Hn2; congruence.
  - exists (k1 ++ k2). by rewrite Hk2, Hk1, app_assoc.
Qed.

(** A step that may change the life-cycle and the transport, towards
    closed, and nothing else that [evolves] looks at. *)
Lemma evolves_closing c c' :
  (connecting c' = true → connecting c = true) →
  (is_Some (conn c) → is_Some (conn c')) →
  mid c' = mid c → chSend c' = chSend c →
  handshakeData c' = handshakeData c →
  handshakeAckData c' = handshakeAckData c →
  heartbeatData c' = heartbeatData c →
  calls c' = calls c →
  evolves c c'.
Proof.
  intros Hcg Hconn Hmid Hq Hh Ha Hb Hcalls.
  unfold evolves. rewrite Hmid, Hq, Hh, Ha, Hb, Hcalls.
  do 5 (split; [done |]).
  split; [| split; [done | exists []; by rewrite app_nil_r]].
  exists []. rewrite app_nil_r. split; [done |]. split; [| done].
  cbn. by rewrite Z.add_0_r.
Qed.

Lemma Close_evolves c c' : Close c = Alive c' → evolves c c'.
Proof.
  unfold Close. destruct (connecting c) eqn:Hc; cbn [negb].
  - destruct (conn c) as [k |] eqn:Hk; [| done]. intros [= <-].
    by apply evolves_closing.
  - intros [= <-]. apply evolves_refl.
Qed.

Lemma Close_enter_evolves c : evolves c (Close_enter c).
Proof.
  unfold Close_enter. destruct (connecting c) eqn:Hc; cbn [negb];
    [| apply evolves_refl].
  by apply evolves_closing.
Qed.

Lemma Close_next_evolves j c c' : Close_next j c = Alive c' → evolves c c'.
Proof.
  unfold Close_next.
  destruct (closers c !! j) as [[| | |] |];
    try (intros [= <-]; by apply evolves_closing).
  destruct (conn c) as [k |] eqn:Hk; [| done]. intros [= <-].
  by apply evolves_closing.
Qed.

Lemma setResponseHandler_evolves id cb c :
  evolves c (setResponseHandler id cb c).
Proof.
  apply (evolves_calls _ _ []); try (by destruct cb).
  rewrite app_nil_r. by destruct cb.
Qed.

(** Queueing one buffer that does not come from [sendMessage]. *)
Lemma send_evolves who data c :
  from_sendMessage (who, data) = false →
  (is_Some (handshakeAckData c) → is_Some (heartbeatData c) → is_Some data) →
  evolves c (send who data c).
Proof.
  intros Hwho Hdata. unfold evolves, send. cbn.
  do 5 (split; [done |]). split; [| split; [done | exists []; by rewrite app_nil_r]].
  exists [(who, data)]. split; [done |]. split.
  - cbn [List.filter]. rewrite Hwho. cbn. by rewrite Z.add_0_r.
  - intros Hack Hbeat. apply Forall_singleton. cbn. by apply Hdata.
Qed.

Lemma sendMessage_evolves msg c : evolves c (fst (sendMessage msg c)).
Proof.
  destruct (sendMessage_cases msg c) as [(e & -> & _) | (payload & ->)].
  - apply evolves_refl.
  - cbn [fst]. unfold evolves, send. cbn.
    do 5 (split; [done |]).
    split; [| split; [intros _; apply uint_range |
                      exists []; by rewrite app_nil_r]].
    exists [(BySendMessage, Some payload)]. split; [done |]. split.
    + cbn. unfold uint. by rewrite Zmod_mod.
    + intros _ _. by apply Forall_singleton.
Qed.

Lemma Request_evolves route data callback c :
  evolves c (fst (Request route data callback c)).
Proof.
  unfold Request.
  pose proof (sendMessage_evolves (request_message route data c)
                (setResponseHandler (mid c) callback c)) as Hs.
  destruct (sendMessage (request_message route data c)
              (setResponseHandler (mid c) callback c)) as [c2 [e |]];
    cbn [fst] in *.
  - eapply evolves_trans; [apply setResponseHandler_evolves |].
    eapply evolves_trans; [exact Hs | apply setResponseHandler_evolves].
  - eapply evolves_trans; [apply setResponseHandler_evolves | exact Hs].
Qed.

Lemma processMessage_evolves c msg c' :
  processMessage c msg = Alive c' → evolves c c'.
Proof.
  unfold processMessage, eventHandler, responseHandler, call.
  destruct (message.Typ msg).
  - intros [= <-]. apply evolves_refl.
  - intros [= <-]. apply evolves_refl.
  - destruct (responses c !! message.ID msg) as [cb |].
    + intros [= <-].
      apply (evolves_trans _ (invoke cb (message.Data_ msg) c));
        [| exact (setResponseHandler_evolves (message.ID msg) None
                    (invoke cb (message.Data_ msg) c))].
      by apply (evolves_calls _ _ [InvokeCallback cb (message.Data_ msg)]).
    + intros [= <-]. apply evolves_refl.
  - destruct (events c !! message.Route msg) as [[cb |] |].
    + intros [= <-].
      by apply (evolves_calls _ _ [InvokeCallback cb (message.Data_ msg)]).
    + done.
    + intros [= <-]. apply evolves_refl.
Qed.

Lemma ticker_at_evolves i pc c : evolves c (ticker_at i pc c).
Proof.
  unfold ticker_at. destruct (tickers c !! i); [| apply evolves_refl].
  apply (evolves_calls _ _ []); try done. by rewrite app_nil_r.
Qed.

Lemma ticker_step_evolves i c c' : ticker_step i c = Alive c' → evolves c c'.
Proof.
  unfold ticker_step.
  destruct (tickers c !! i) as [t |] eqn:Ht;
    [| intros [= <-]; apply evolves_refl].
  destruct (at_pc t).
  - destruct (ticker_period (seconds t) <=? 0); [done |].
    intros [= <-]. apply ticker_at_evolves.
  - destruct (IsClosed c); intros [= <-]; apply ticker_at_evolves.
  - intros [= <-].
    eapply evolves_trans; [apply (ticker_at_evolves i TickerWaiting) |].
    destruct (ticker_at_effect i TickerWaiting t c Ht)
      as (_ & _ & _ & _ & _ & _ & _ & Hb).
    rewrite <- Hb. apply send_evolves; [done | auto].
  - intros [= <-]. apply evolves_refl.
Qed.

Lemma processPacket_evolves c p c' :
  processPacket c p = Alive c' → evolves c c'.
Proof.
  unfold processPacket.
  destruct (packet.Typ p).
  - destruct (json_Unmarshal (packet.Data_ p)) as [h | e];
      [| apply Close_evolves].
    destruct (Code h =? 200); [| done].
    set (c1 := go_heartbeat (Heartbeat (Sys h)) c).
    assert (H1 : evolves c c1)
      by (apply (evolves_calls _ _ []); try done; by rewrite app_nil_r).
    assert (H2 : evolves c1 (send ByHandshake (handshakeAckData c1) c1))
      by (apply send_evolves; [done | auto]).
    destruct (connectedCallback (send ByHandshake (handshakeAckData c1) c1))
      as [f |]; intros [= <-].
    + eapply evolves_trans; [exact H1 |].
      eapply evolves_trans; [exact H2 |].
      by apply (evolves_calls _ _ [InvokeConnected f]).
    + eapply evolves_trans; [exact H1 | exact H2].
  - intros [= <-]. apply evolves_refl.
  - intros [= <-]. apply evolves_refl.
  - destruct (message_Decode (packet.Data_ p)) as [msg | e].
    + apply processMessage_evolves.
    + intros [= <-]. apply evolves_refl.
  - done.
Qed.

Lemma run_step_evolves s c c' : run_step s c = Alive c' → evolves c c'.
Proof.
  destruct s
    as [d | p | | [| j | route data cb | route data | event cb | i]];
    cbn [run_step act].
  - intros [= <-]. apply (evolves_calls _ _ []); try done.
    by rewrite app_nil_r.
  - apply processPacket_evolves.
  - apply Close_evolves.
  - intros [= <-]. apply Close_enter_evolves.
  - apply Close_next_evolves.
  - intros [= <-]. apply Request_evolves.
  - intros [= <-]. unfold Notify. apply sendMessage_evolves.
  - intros [= <-]. apply (evolves_calls _ _ []); try done.
    by rewrite app_nil_r.
  - apply ticker_step_evolves.
Qed.

Lemma exec_evolves steps c c' : exec steps c = Alive c' → evolves c c'.
Proof.
  revert c. induction steps as [| s rest IH]; intros c H.
  - injection H as <-. apply evolves_refl.
  - cbn [exec] in H.
    destruct (run_step s c) as [c1 | |] eqn:Hs; [| done | done].
    change (exec rest c1 = Alive c') in H.
    eapply evolves_trans; [by eapply run_step_evolves | by apply IH].
Qed.

(** ** [Run] before the loop *)

(** X1. When [Run] fails before it connects, it returns at once with the
    error and has not touched the life-cycle, the transport, the send queue
    or the configured handshake.  The error is the missing-handshake error
    exactly when no handshake was configured (the connector is then
    untouched); otherwise it is the error of encoding a default payload or
    the dial error. *)
Theorem Run_fails_before_connecting addr ws script c c' e :
  Run_start addr ws c = inr (c', e) →
  Run addr ws script c = Returned c' (Some e) ∧
  connecting c' = connecting c ∧ conn c' = conn c ∧
  chSend c' = chSend c ∧ calls c' = calls c ∧ mid c' = mid c ∧
  handshakeData c' = handshakeData c ∧
  (handshakeData c = None → c' = c ∧ e = "handshake not defined"%string) ∧
  (is_Some (handshakeData c) →
   codec_Encode packet.HandshakeAck None = inr e ∨
   codec_Encode packet.Heartbeat None = inr e ∨
   Dial addr ws = Some e).
Proof.
  intros H.
  split; [unfold Run; by rewrite H |].
  unfold Run_start, SetHandshakeAck, SetHeartBeat in H.
  destruct (handshakeData c) as [h |] eqn:Hh.
  - destruct (handshakeAckData c) as [a |] eqn:Ha.
    + destruct (heartbeatData c) as [b |] eqn:Hb.
      * destruct (Dial addr ws) as [err |] eqn:Hd; [| done].
        injection H as <- <-. rewrite Hh.
        do 6 (split; [done |]). split; [done | auto].
      * destruct (codec_Encode packet.Heartbeat None) as [b | err] eqn:Hb'.
        -- cbn in H. destruct (Dial addr ws) as [err |] eqn:Hd; [| done].
           injection H as <- <-. cbn. rewrite Hh.
           do 6 (split; [done |]). split; [done | auto].
        -- injection H as <- <-. cbn. rewrite Hh.
           do 6 (split; [done |]). split; [done | auto].
    + destruct (codec_Encode packet.HandshakeAck None) as [a | err] eqn:Ha'.
      * cbn in H.
        destruct (heartbeatData c) as [b |] eqn:Hb.
        -- destruct (Dial addr ws) as [err |] eqn:Hd; [| done].
           injection H as <- <-. cbn. rewrite Hh.
           do 6 (split; [done |]). split; [done | auto].
        -- destruct (codec_Encode packet.Heartbeat None) as [b | err] eqn:Hb'.
           ++ cbn in H. destruct (Dial addr ws) as [err |] eqn:Hd; [| done].
              injection H as <- <-. cbn. rewrite Hh.
              do 6 (split; [done |]). split; [done | auto].
           ++ injection H as <- <-. cbn. rewrite Hh.
              do 6 (split; [done |]). split; [done | auto].
      * injection H as <- <-. cbn. rewrite Hh.
        do 6 (split; [done |]). split; [done | auto].
  - injection H as <- <-. rewrite Hh. do 6 (split; [done |]).
    split; [done |]. by intros [? ?].
Qed.

(** X2. When [Run] gets to the loop, the dial has succeeded, the connector
    is open and holds the transport, the three payloads are set (a payload
    the caller configured is kept, a missing acknowledgement or heartbeat is
    the encoding of an empty one), and the configured handshake is the one
    buffer added to the send queue. *)
Theorem Run_connects addr ws c c' :
  Run_start addr ws c = inl c' →
  Dial addr ws = None ∧
  connecting c' = true ∧ conn c' = Some ConnOpen ∧
  transport_held c' = true ∧
  is_Some (handshakeData c) ∧ handshakeData c' = handshakeData c ∧
  handshakeAckData c' =
    match handshakeAckData c with
    | Some a => Some a
    | None =>
        match codec_Encode packet.HandshakeAck None with
        | inl a => Some a
        | inr _ => None
        end
    end ∧
  heartbeatData c' =
    match heartbeatData c with
    | Some b => Some b
    | None =>
        match codec_Encode packet.Heartbeat None with
        | inl b => Some b
        | inr _ => None
        end
    end ∧
  is_Some (handshakeAckData c') ∧ is_Some (heartbeatData c') ∧
  chSend c' = chSend c ++ [(ByRun, handshakeData c)] ∧
  mid c' = mid c ∧ calls c' = calls c ∧ tickers c' = tickers c ∧
  ∀ script, Run addr ws script c = read script c'.
Proof.
  intros H.
  assert (HRun : ∀ script, Run addr ws script c = read script c')
    by (intros script; unfold Run; by rewrite H).
  unfold Run_start, SetHandshakeAck, SetHeartBeat in H.
  destruct (handshakeData c) as [h |] eqn:Hh; [| done].
  destruct (handshakeAckData c) as [a |] eqn:Ha.
  - destruct (heartbeatData c) as [b |] eqn:Hb.
    + destruct (Dial addr ws) as [err |] eqn:Hd; [done |].
      injection H as <-. cbn. rewrite Hh, Ha, Hb. rewrite Hh in HRun.
      by repeat split.
    + destruct (codec_Encode packet.Heartbeat None) as [b | err] eqn:Hb';
        [| done].
      cbn in H. destruct (Dial addr ws) as [err |] eqn:Hd; [done |].
      injection H as <-. cbn. rewrite Hh, Ha. rewrite Hh in HRun.
      by repeat split.
  - destruct (codec_Encode packet.HandshakeAck None) as [a | err] eqn:Ha';
      [| done].
    cbn in H. destruct (heartbeatData c) as [b |] eqn:Hb.
    + destruct (Dial addr ws) as [err |] eqn:Hd; [done |].
      injection H as <-. cbn. rewrite Hh, Hb. rewrite Hh in HRun.
      by repeat split.
    + destruct (codec_Encode packet.Heartbeat None) as [b | err] eqn:Hb';
        [| done].
      cbn in H. destruct (Dial addr ws) as [err |] eqn:Hd; [done |].
      injection H as <-. cbn. rewrite Hh. rewrite Hh in HRun.
      by repeat split.
Qed.

(** ** Invariants of executions *)



(** X4. A connector that holds its transport while open, as after [Run]
    has connected, still does after any execution; [Close] on it never
    dereferences a nil transport: it succeeds, leaves the connector closed,
    and a second [Close] changes nothing. *)
Theorem Close_is_safe_and_idempotent steps c c' :
  transport_held c = true →
  exec steps c = Alive c' →
  transport_held c' = true ∧
  ∃ c'', Close c' = Alive c'' ∧ IsClosed c'' = true ∧
         Close c'' = Alive c'' ∧
         die c'' = (die c' + if connecting c' then 1 else 0)%nat.
Proof.
  intros Hheld H.
  destruct (exec_evolves _ _ _ H) as (_ & _ & _ & Hc & Ht & _).
  assert (Hheld' : transport_held c' = true).
  { unfold transport_held in *.
    destruct (connecting c') eqn:Hc'; [| done].
    rewrite (Hc eq_refl) in Hheld.
    destruct (conn c) as [k |]; [| done].
    by destruct (Ht (ltac:(by eexists))) as [k' ->]. }
  split; [done |].
  unfold transport_held in Hheld'. unfold Close, IsClosed.
  destruct (connecting c') eqn:Hc'; cbn [negb].
  - destruct (conn c') as [k |]; [| done].
    eexists. split; [done |]. cbn. split; [done |]. split; [done | lia].
  - exists c'. rewrite Hc'. cbn. split; [done |]. split; [done |].
    split; [done | lia].
Qed.

(** X5. The send queue and the record of calls only grow: what was queued
    stays queued, in the order it was queued.  When the acknowledgement and
    heartbeat payloads are set, as [Run] makes sure, no nil buffer is ever
    queued. *)
Theorem send_queue_only_grows steps c c' :
  exec steps c = Alive c' →
  (∃ l, chSend c' = chSend c ++ l ∧
        (is_Some (handshakeAckData c) → is_Some (heartbeatData c) →
         Forall (λ f, is_Some (snd f)) l)) ∧
  (∃ l, calls c' = calls c ++ l) ∧
  handshakeAckData c' = handshakeAckData c ∧
  heartbeatData c' = heartbeatData c.
Proof.
  intros H.
  destruct (exec_evolves _ _ _ H)
    as (_ & Ha & Hb & _ & _ & (l & Hq & _ & Hn) & _ & Hcalls).
  split; [by exists l |]. by split.
Qed.

(** X6. Over any execution the message-id counter moves by exactly the
    number of messages [Request] and [Notify] put on the send queue, modulo
    the size of [uint], and stays a [uint]. *)
Theorem counter_counts_messages_sent steps c c' :
  0 ≤ mid c < 2 ^ uint_size →
  exec steps c = Alive c' →
  mid c' = uint (mid c + Z.of_nat (messages_sent c' - messages_sent c)) ∧
  0 ≤ mid c' < 2 ^ uint_size ∧
  (messages_sent c ≤ messages_sent c')%nat.
Proof.
  intros Hrange H.
  destruct (exec_evolves _ _ _ H)
    as (_ & _ & _ & _ & _ & (l & Hq & Hm & _) & Hr & _).
  specialize (Hr Hrange).
  assert (Hn : messages_sent c' =
               (messages_sent c + length (List.filter from_sendMessage l))%nat).
  { unfold messages_sent. by rewrite Hq, List.filter_app, length_app. }
  split; [| split; [done | lia]].
  replace (messages_sent c' - messages_sent c)%nat
    with (length (List.filter from_sendMessage l)) by lia.
  rewrite <- Hm. unfold uint. symmetry. by apply Z.mod_small.
Qed.

(** ** Pushes *)

(** X7. A handler registered with [On] is called with the payload of every
    push on its route and stays registered; registering again replaces it;
    a push on a route without handler changes nothing. *)
Theorem Push_calls_the_registered_handler c route f g id1 d1 id2 d2 :
  let push id d :=
    {| message.Typ := message.Push; message.Route := route;
       message.ID := id; message.Data_ := d |} in
  (∃ c1 c2,
     processMessage (On route (Some f) c) (push id1 d1) = Alive c1 ∧
     processMessage c1 (push id2 d2) = Alive c2 ∧
     calls c2 = calls c ++ [InvokeCallback f d1; InvokeCallback f d2] ∧
     events c2 = <[route := Some f]> (events c) ∧
     responses c2 = responses c ∧ chSend c2 = chSend c) ∧
  (∃ c1,
     processMessage (On route (Some g) (On route (Some f) c)) (push id1 d1)
       = Alive c1 ∧
     calls c1 = calls c ++ [InvokeCallback g d1]) ∧
  (events c !! route = None → processMessage c (push id1 d1) = Alive c).
Proof.
  intros push. split; [| split].
  - unfold processMessage, eventHandler, On. cbn.
    rewrite lookup_insert_eq. cbn.
    eexists. eexists. split; [done |]. cbn. rewrite lookup_insert_eq. cbn.
    split; [done |]. cbn. by rewrite <- app_assoc.
  - unfold processMessage, eventHandler, On. cbn.
    rewrite lookup_insert_eq. cbn. by eexists.
  - intros Hnone. unfold processMessage, eventHandler. cbn. by rewrite Hnone.
Qed.

(** X8. [On] stores a nil callback as it is: the next push on that route
    calls a nil func, and the process panics, inside [processMessage] and so
    inside [processPacket].  [Request] with a nil callback registers
    nothing, and its response is dropped. *)
Theorem Push_on_nil_handler_panics c route id d p :
  let push :=
    {| message.Typ := message.Push; message.Route := route;
       message.ID := id; message.Data_ := d |} in
  processMessage (On route None c) push = Panicked ∧
  (packet.Typ p = packet.Data →
   message_Decode (packet.Data_ p) = inl push →
   processPacket (On route None c) p = Panicked ∧
   ∀ rest, processPackets (On route None c) (p :: rest) = Panicked) ∧
  (∀ r data c1 r' d',
     Request r data None c = (c1, None) →
     processMessage c1 (response_for (mid c) r' d') = Alive c1).
Proof.
  intros push.
  assert (Hp : processMessage (On route None c) push = Panicked).
  { unfold processMessage, eventHandler, On. cbn.
    by rewrite lookup_insert_eq. }
  split; [done |]. split.
  - intros Ht Hm.
    assert (Hpp : processPacket (On route None c) p = Panicked)
      by (unfold processPacket; by rewrite Ht, Hm).
    split; [done |]. intros rest. cbn [processPackets]. by rewrite Hpp.
  - intros r data c1 r' d' H. unfold Request in H.
    match type of H with
    | context [sendMessage ?m ?x] =>
        destruct (sendMessage_cases m x) as [(e & Hs & _) | (pl & Hs)];
        rewrite Hs in H
    end; [done |].
    injection H as <-.
    unfold processMessage, responseHandler, response_for. cbn.
    by rewrite lookup_delete_eq.
Qed.

(** X21. Responses are matched to requests by id, not by order of
    arrival: with two callbacks pending under different ids, the responses
    may come in the reverse order; each callback is called once with the
    payload of its own response, and both entries are gone afterwards. *)
Theorem responses_are_matched_by_id c a f b g ra da rb db :
  responses c !! a = Some f → responses c !! b = Some g → a ≠ b →
  ∃ c1 c2,
    processMessage c (response_for b rb db) = Alive c1 ∧
    processMessage c1 (response_for a ra da) = Alive c2 ∧
    calls c2 = calls c ++ [InvokeCallback g db; InvokeCallback f da] ∧
    responses c2 = delete a (delete b (responses c)) ∧
    responses c2 !! a = None ∧ responses c2 !! b = None ∧
    ∀ i, i ≠ a → i ≠ b → responses c2 !! i = responses c !! i.
Proof.
  intros Hf Hg Hne.
  unfold processMessage, responseHandler, response_for.
  cbn [message.Typ message.ID message.Data_]. rewrite Hg.
  eexists. eexists. split; [done |].
  cbn. rewrite lookup_delete_ne by done. rewrite Hf.
  split; [done |]. cbn. split; [by rewrite <- app_assoc |].
  split; [done |]. split; [apply lookup_delete_eq |]. split.
  - rewrite lookup_delete_ne by done. apply lookup_delete_eq.
  - intros i Hia Hib. by rewrite !lookup_delete_ne.
Qed.

(** ** Requests and notifications *)

Lemma uint_succ_ne m : 0 ≤ m < 2 ^ uint_size → uint (m + 1) ≠ m.
Proof.
  unfold uint, uint_size. change (2 ^ 64) with 18446744073709551616.
  intros Hm. destruct (decide (m + 1 < 18446744073709551616)) as [Hlt | Hge].
  - rewrite Z.mod_small; lia.
  - replace m with 18446744073709551615 by lia. by compute.
Qed.

(** X9. Two requests sent one after the other are registered under
    different ids, and the second leaves the first one's callback pending.
    After the largest id the counter starts again from 0. *)
Theorem consecutive_Requests_keep_both_callbacks c r1 d1 f1 c1 r2 d2 f2 c2 :
  0 ≤ mid c < 2 ^ uint_size →
  Request r1 d1 (Some f1) c = (c1, None) →
  Request r2 d2 (Some f2) c1 = (c2, None) →
  mid c1 = uint (mid c + 1) ∧ mid c1 ≠ mid c ∧
  responses c2 !! mid c = Some f1 ∧
  responses c2 !! mid c1 = Some f2 ∧
  (mid c = 2 ^ uint_size - 1 → mid c1 = 0).
Proof.
  intros Hrange H1 H2.
  unfold Request in H1, H2.
  match type of H1 with
  | context [sendMessage ?m ?x] =>
      destruct (sendMessage_cases m x) as [(e & Hs & _) | (pl & Hs)];
      rewrite Hs in H1
  end; [done |].
  injection H1 as <-.
  match type of H2 with
  | context [sendMessage ?m ?x] =>
      destruct (sendMessage_cases m x) as [(e & Hs' & _) | (pl' & Hs')];
      rewrite Hs' in H2
  end; [done |].
  injection H2 as <-. cbn.
  pose proof (uint_succ_ne _ Hrange) as Hne.
  split; [done |]. split; [done |]. split; [| split].
  - rewrite lookup_insert_ne by done. apply lookup_insert_eq.
  - apply lookup_insert_eq.
  - intros ->. by compute.
Qed.

(** X10. A successful [Request] queues exactly one buffer: the Data packet
    that carries the encoded message, whose id is the counter's value at the
    call.  It registers the callback under that id and calls nothing. *)
Theorem Request_queues_one_packet route data f c c' :
  Request route data (Some f) c = (c', None) →
  ∃ b payload,
    message_Encode
      {| message.Typ := message.Request; message.Route := route;
         message.ID := mid c; message.Data_ := data |} = inl b ∧
    codec_Encode packet.Data (Some b) = inl payload ∧
    chSend c' = chSend c ++ [(BySendMessage, Some payload)] ∧
    responses c' = <[mid c := f]> (responses c) ∧
    calls c' = calls c ∧ connecting c' = connecting c ∧
    events c' = events c.
Proof.
  unfold Request, sendMessage, request_message. intros H.
  destruct (message_Encode _) as [b | e] eqn:Hm; [| done].
  destruct (codec_Encode packet.Data (Some b)) as [payload | e] eqn:Hc;
    [| done].
  injection H as <-. exists b, payload. by repeat split.
Qed.

(** X11. [Notify] either fails with the encoder's error and leaves the
    connector exactly as it was, or queues exactly one Data packet carrying
    the encoded message; it never registers or calls anything, and it sends
    whether or not the connector is open. *)
Theorem Notify_queues_one_packet_or_nothing route data c :
  let msg := {| message.Typ := message.Notify; message.Route := route;
                message.ID := 0; message.Data_ := data |} in
  match Notify route data c with
  | (c', Some e) =>
      c' = c ∧
      (message_Encode msg = inr e ∨
       ∃ b, message_Encode msg = inl b ∧
            codec_Encode packet.Data (Some b) = inr e)
  | (c', None) =>
      ∃ b payload,
        message_Encode msg = inl b ∧
        codec_Encode packet.Data (Some b) = inl payload ∧
        chSend c' = chSend c ++ [(BySendMessage, Some payload)] ∧
        responses c' = responses c ∧ calls c' = calls c ∧
        connecting c' = connecting c
  end.
Proof.
  intros msg. unfold Notify, sendMessage. fold msg.
  destruct (message_Encode msg) as [b | e] eqn:Hm.
  - destruct (codec_Encode packet.Data (Some b)) as [payload | e] eqn:Hc.
    + exists b, payload. by repeat split.
    + split; [done | right]. by exists b.
  - split; [done | by left].
Qed.

(** ** Packets *)

(** X12. Packets the client has no use for leave the connector exactly as
    it was: HandshakeAck and Heartbeat packets, a Data packet whose payload
    is not a message, and a Data packet carrying a Request or a Notify. *)
Theorem processPacket_ignores c p :
  (packet.Typ p = packet.HandshakeAck ∨ packet.Typ p = packet.Heartbeat ∨
   packet.Typ p = packet.Data ∧
   match message_Decode (packet.Data_ p) with
   | inr _ => True
   | inl msg =>
       message.Typ msg = message.Request ∨ message.Typ msg = message.Notify
   end) →
  processPacket c p = Alive c.
Proof.
  unfold processPacket. intros [-> | [-> | [-> Hm]]]; [done | done |].
  destruct (message_Decode (packet.Data_ p)) as [msg | e]; [| done].
  unfold processMessage. by destruct Hm as [-> | ->].
Qed.



(** ** Heartbeats *)

Lemma ticker_period_nonpositive h :
  -9223372036 ≤ h ≤ 0 → ticker_period h ≤ 0.
Proof.
  intros Hh. unfold ticker_period, int64.
  change (2 ^ 63) with 9223372036854775808.
  change (2 ^ 64) with 18446744073709551616.
  rewrite Z.mod_small; lia.
Qed.

Lemma ticker_period_positive h :
  0 < h ≤ 9223372036 → 0 < ticker_period h.
Proof.
  intros Hh. unfold ticker_period, int64.
  change (2 ^ 63) with 9223372036854775808.
  change (2 ^ 64) with 18446744073709551616.
  rewrite Z.mod_small; lia.
Qed.

(** The connector a successful handshake leaves: one more goroutine, at the
    end of [tickers]. *)
Lemma handshake_ok_starts_ticker c p h :
  packet.Typ p = packet.Handshake →
  json_Unmarshal (packet.Data_ p) = inl h →
  Code h = 200 →
  ∃ c', processPacket c p = Alive c' ∧
        tickers c' = tickers c ++ [{| seconds := Heartbeat (Sys h);
                                      at_pc := TickerStarting |}] ∧
        chSend c' = chSend c ++ [(ByHandshake, handshakeAckData c)] ∧
        connecting c' = connecting c ∧
        heartbeatData c' = heartbeatData c.
Proof.
  intros Ht Hu Hcode. unfold processPacket. rewrite Ht, Hu, Hcode. cbn.
  destruct (connectedCallback c); by eexists.
Qed.

(** X14. A handshake response with code 200 is accepted whatever its
    heartbeat interval: the acknowledgement is queued and the goroutine is
    started.  When the interval gives a ticker period that is not positive,
    the goroutine's [time.NewTicker] panics.  That is so for every interval
    from -9223372036 to 0 seconds (0 is what a missing field unmarshals to)
    and, the period being computed in [int64], for an interval of
    9223372037 seconds. *)
Theorem nonpositive_ticker_period_panics c p h :
  packet.Typ p = packet.Handshake →
  json_Unmarshal (packet.Data_ p) = inl h →
  Code h = 200 →
  ticker_period (Heartbeat (Sys h)) ≤ 0 →
  (∃ c', processPacket c p = Alive c' ∧
         chSend c' = chSend c ++ [(ByHandshake, handshakeAckData c)] ∧
         ticker_step (length (tickers c)) c' = Panicked ∧
         exec [Do (DoTick (length (tickers c)))] c' = Panicked) ∧
  (∀ x, -9223372036 ≤ x ≤ 0 → ticker_period x ≤ 0) ∧
  ticker_period 9223372037 ≤ 0.
Proof.
  intros Ht Hu Hcode Hh. split; [| split].
  - destruct (handshake_ok_starts_ticker c p h Ht Hu Hcode)
      as (c' & Hp & Htk & Hq & _).
    exists c'. do 2 (split; [done |]).
    assert (Hstep : ticker_step (length (tickers c)) c' = Panicked).
    { unfold ticker_step. rewrite Htk.
      rewrite lookup_app_r by done. rewrite Nat.sub_diag. cbn.
      by destruct (Z.leb_spec (ticker_period (Heartbeat (Sys h))) 0);
        [| lia]. }
    split; [done |]. cbn. by rewrite Hstep.
  - apply ticker_period_nonpositive.
  - by compute.
Qed.

(** [n] ticks of one goroutine, test and send, with nothing in between. *)
Lemma ticks_send i t n c :
  tickers c !! i = Some t → at_pc t = TickerWaiting →
  IsClosed c = false →
  ∃ c', exec (repeat (Do (DoTick i)) (2 * n)) c = Alive c' ∧
        chSend c' = chSend c ++ repeat (ByTicker, heartbeatData c) n ∧
        connecting c' = connecting c.
Proof.
  revert t c. induction n as [| n IH]; intros t c Ht Hpc Hopen.
  - exists c. cbn. by rewrite app_nil_r.
  - replace (2 * S n)%nat with (S (S (2 * n))) by lia.
    cbn [repeat exec run_step act].
    assert (H1 : ticker_step i c = Alive (ticker_at i TickerChecked c))
      by (unfold ticker_step; by rewrite Ht, Hpc, Hopen).
    rewrite H1. cbn [mbind proc_bind].
    destruct (ticker_at_effect i TickerChecked t c Ht)
      as (Htk1 & _ & _ & Hq1 & _ & Hc1 & _ & Hb1).
    assert (Hi : (i < length (tickers c))%nat) by (by eapply lookup_lt_Some).
    assert (Ht1 : tickers (ticker_at i TickerChecked c) !! i
                  = Some {| seconds := seconds t; at_pc := TickerChecked |})
      by (rewrite Htk1; by apply list_lookup_insert_eq).
    rewrite (ticker_step_sends _ _ _ Ht1 eq_refl). cbn [mbind proc_bind].
    destruct (ticker_at_effect i TickerWaiting _ _ Ht1)
      as (Htk2 & Hl2 & _ & Hq2 & _ & Hc2 & _ & Hb2).
    set (c2 := send ByTicker (heartbeatData (ticker_at i TickerChecked c))
                 (ticker_at i TickerWaiting (ticker_at i TickerChecked c))).
    assert (Ht2 : tickers c2 !! i
                  = Some {| seconds := seconds t; at_pc := TickerWaiting |}).
    { unfold c2. cbn [tickers send with_chSend]. rewrite Htk2.
      apply list_lookup_insert_eq. rewrite Htk1, length_insert. done. }
    assert (Hopen2 : IsClosed c2 = false).
    { unfold IsClosed, c2 in *. cbn [connecting send with_chSend].
      by rewrite Hc2, Hc1. }
    destruct (IH _ c2 Ht2 eq_refl Hopen2) as (c' & He & Hq & Hc).
    exists c'. split; [exact He |]. split.
    + rewrite Hq. unfold c2. cbn [chSend send with_chSend heartbeatData].
      rewrite Hq2, Hq1, Hb2, Hb1. cbn. by rewrite <- app_assoc.
    + rewrite Hc. unfold c2. cbn [connecting send with_chSend].
      by rewrite Hc2, Hc1.
Qed.

(** X15. After a handshake response with code 200 on an open connector,
    when the heartbeat interval gives a positive ticker period (as every
    interval from 1 to 9223372036 seconds does) and nothing else runs in
    between, the goroutine starts its ticker and every tick, test then
    send, queues the heartbeat payload: [n] ticks queue it [n] times, after
    the acknowledgement, and the connector stays open. *)
Theorem heartbeat_sent_on_every_tick c p h n :
  packet.Typ p = packet.Handshake →
  json_Unmarshal (packet.Data_ p) = inl h →
  Code h = 200 →
  0 < ticker_period (Heartbeat (Sys h)) →
  IsClosed c = false →
  (∃ c', exec (Deliver p :: Do (DoTick (length (tickers c)))
                 :: repeat (Do (DoTick (length (tickers c)))) (2 * n)) c
           = Alive c' ∧
         chSend c' = chSend c ++ (ByHandshake, handshakeAckData c)
                       :: repeat (ByTicker, heartbeatData c) n ∧
         heartbeats_sent c' = (heartbeats_sent c + n)%nat ∧
         IsClosed c' = false) ∧
  (∀ x, 0 < x ≤ 9223372036 → 0 < ticker_period x).
Proof.
  intros Ht Hu Hcode Hh Hopen. split; [| apply ticker_period_positive].
  destruct (handshake_ok_starts_ticker c p h Ht Hu Hcode)
    as (c1 & Hp & Htk & Hq & Hc & Hb).
  assert (Hlook : tickers c1 !! length (tickers c)
                  = Some {| seconds := Heartbeat (Sys h);
                            at_pc := TickerStarting |}).
  { rewrite Htk, lookup_app_r by done. by rewrite Nat.sub_diag. }
  assert (Hstart : ticker_step (length (tickers c)) c1
                   = Alive (ticker_at (length (tickers c)) TickerWaiting c1)).
  { unfold ticker_step. rewrite Hlook. cbn.
    by destruct (Z.leb_spec (ticker_period (Heartbeat (Sys h))) 0); [lia |]. }
  pose proof (ticker_at_effect _ TickerWaiting _ _ Hlook) as Heff.
  set (c2 := ticker_at (length (tickers c)) TickerWaiting c1) in *.
  destruct Heff as (Htk2 & _ & _ & Hq2 & _ & Hc2 & _ & Hb2).
  assert (Hlook2 : tickers c2 !! length (tickers c)
                   = Some {| seconds := Heartbeat (Sys h);
                             at_pc := TickerWaiting |}).
  { rewrite Htk2. apply list_lookup_insert_eq. by eapply lookup_lt_Some. }
  assert (Hopen2 : IsClosed c2 = false)
    by (unfold IsClosed in *; by rewrite Hc2, Hc).
  destruct (ticks_send _ _ n c2 Hlook2 eq_refl Hopen2) as (c' & He & Hq' & Hc').
  exists c'. cbn [exec run_step act]. rewrite Hp. cbn [mbind proc_bind].
  rewrite Hstart. cbn [mbind proc_bind].
  split; [exact He |].
  assert (Hall : chSend c' = chSend c ++ (ByHandshake, handshakeAckData c)
                               :: repeat (ByTicker, heartbeatData c) n)
    by (rewrite Hq', Hq2, Hq, Hb2, Hb, <- app_assoc; done).
  split; [done |]. split.
  - unfold heartbeats_sent. rewrite Hall, List.filter_app, length_app.
    cbn [List.filter from_ticker fst]. f_equal.
    clear. induction n as [| n IH]; [done |]. cbn. by rewrite IH.
  - unfold IsClosed in *. by rewrite Hc', Hc2, Hc.
Qed.


(** ** The writer *)

Lemma write_buffers c k script :
  conn c = Some k → forallb is_buffer script = true →
  write c script = (buffers script, false).
Proof.
  intros Hk. induction script as [| [data err |] rest IH]; intros Hall.
  - done.
  - cbn [write]. rewrite (IH Hall), Hk. done.
  - done.
Qed.

(** X17. The writer hands every buffer it receives to the transport, in
    the order received and whether or not earlier writes failed, until it
    receives the teardown signal; then it returns, and what is still queued
    is never written.  Without a transport it writes nothing. *)
Theorem write_until_teardown c pre post :
  forallb is_buffer pre = true →
  (∀ k, conn c = Some k →
        write c pre = (buffers pre, false) ∧
        write c (pre ++ FromDie :: post) = (buffers pre, true)) ∧
  (conn c = None → ∀ script, fst (write c script) = []).
Proof.
  intros Hall. split.
  - intros k Hk. split; [by apply (write_buffers _ k) |].
    induction pre as [| [data err |] rest IH]; [done | | done].
    cbn [app write]. rewrite (IH Hall), Hk. done.
  - intros Hnone script.
    induction script as [| [data err |] rest IH]; [done | | done].
    cbn [write]. destruct (write c rest) as [w r]. by rewrite Hnone.
Qed.

(** ** Configuration *)

(** X18. The three setters behave alike.  When marshalling fails the
    connector is left as it was; when the setter succeeds its field holds
    the encoding of the marshalled value (of a nil payload for a nil
    acknowledgement or heartbeat); and a setter never touches the other two
    payloads, the life-cycle or the send queue. *)
Theorem setters_set_their_own_payload c :
  (∀ v c' r, SetHandshake v c = (c', r) →
     (∀ e, json_Marshal v = inr e → c' = c ∧ r = Some e) ∧
     (r = None →
      ∃ j b, json_Marshal v = inl j ∧
             codec_Encode packet.Handshake (Some j) = inl b ∧
             handshakeData c' = Some b) ∧
     handshakeAckData c' = handshakeAckData c ∧
     heartbeatData c' = heartbeatData c ∧
     connecting c' = connecting c ∧ chSend c' = chSend c) ∧
  (∀ v c' r, SetHandshakeAck v c = (c', r) →
     (∀ x e, v = Some x → json_Marshal x = inr e → c' = c ∧ r = Some e) ∧
     (r = None →
      ∃ b, codec_Encode packet.HandshakeAck
             (match v with
              | None => None
              | Some x =>
                  match json_Marshal x with
                  | inl j => Some j
                  | inr _ => None
                  end
              end) = inl b ∧
           handshakeAckData c' = Some b) ∧
     handshakeData c' = handshakeData c ∧
     heartbeatData c' = heartbeatData c ∧
     connecting c' = connecting c ∧ chSend c' = chSend c) ∧
  (∀ v c' r, SetHeartBeat v c = (c', r) →
     (∀ x e, v = Some x → json_Marshal x = inr e → c' = c ∧ r = Some e) ∧
     (r = None →
      ∃ b, codec_Encode packet.Heartbeat
             (match v with
              | None => None
              | Some x =>
                  match json_Marshal x with
                  | inl j => Some j
                  | inr _ => None
                  end
              end) = inl b ∧
           heartbeatData c' = Some b) ∧
     handshakeData c' = handshakeData c ∧
     handshakeAckData c' = handshakeAckData c ∧
     connecting c' = connecting c ∧ chSend c' = chSend c).
Proof.
  split; [| split].
  - intros v c' r. unfold SetHandshake.
    destruct (json_Marshal v) as [j | e] eqn:Hj.
    + destruct (codec_Encode packet.Handshake (Some j)) as [b | e] eqn:Hb;
        intros [= <- <-].
      * split; [done |]. split; [| done]. intros _. by exists j, b.
      * by repeat split.
    + intros [= <- <-]. split; [by intros ? [= <-] |]. by repeat split.
  - intros v c' r. unfold SetHandshakeAck. destruct v as [x |].
    + destruct (json_Marshal x) as [j | e] eqn:Hj.
      * destruct (codec_Encode packet.HandshakeAck (Some j)) as [b | e] eqn:Hb;
          intros [= <- <-].
        -- split; [intros ? ? [= <-]; by rewrite Hj |].
           split; [| done]. intros _. exists b. cbn. by rewrite ?Hb.
        -- split; [intros ? ? [= <-]; by rewrite Hj |]. by repeat split.
      * intros [= <- <-].
        split; [intros ? ? [= <-]; rewrite Hj; by intros [= <-] |].
        by repeat split.
    + destruct (codec_Encode packet.HandshakeAck None) as [b | e] eqn:Hb;
        intros [= <- <-].
      * split; [done |]. split; [| done]. intros _. by exists b.
      * by repeat split.
  - intros v c' r. unfold SetHeartBeat. destruct v as [x |].
    + destruct (json_Marshal x) as [j | e] eqn:Hj.
      * destruct (codec_Encode packet.Heartbeat (Some j)) as [b | e] eqn:Hb;
          intros [= <- <-].
        -- split; [intros ? ? [= <-]; by rewrite Hj |].
           split; [| done]. intros _. exists b. cbn. by rewrite ?Hb.
        -- split; [intros ? ? [= <-]; by rewrite Hj |]. by repeat split.
      * intros [= <- <-].
        split; [intros ? ? [= <-]; rewrite Hj; by intros [= <-] |].
        by repeat split.
    + destruct (codec_Encode packet.Heartbeat None) as [b | e] eqn:Hb;
        intros [= <- <-].
      * split; [done |]. split; [| done]. intros _. by exists b.
      * by repeat split.
Qed.

(** ** The handshake helpers *)

Section Handshake_helpers.

Variable json_map : Type.
Variable box_opts : HandshakeOpts json_map → value.
Variable box_ack : DefaultHandshakePacket → value.

(** X19. [InitHandshakeACK] does not use its [heartbeatDuration] argument:
    whatever is passed, the acknowledgement configured is the encoding of
    code 200 with heartbeat 1, and that is the buffer queued in answer to a
    successful handshake. *)
Theorem InitHandshakeACK_ignores_its_argument heartbeatDuration c c1 :
  InitHandshakeACK box_ack heartbeatDuration c = (c1, None) →
  (∀ d, InitHandshakeACK box_ack d c = (c1, None)) ∧
  ∃ j b,
    json_Marshal (box_ack {| Code := 200; Sys := {| Heartbeat := 1 |} |})
      = inl j ∧
    codec_Encode packet.HandshakeAck (Some j) = inl b ∧
    handshakeAckData c1 = Some b ∧
    ∀ p, handshake_ok (Deliver p) = true →
         ∃ c2, processPacket c1 p = Alive c2 ∧
               chSend c2 = chSend c1 ++ [(ByHandshake, Some b)].
Proof.
  intros H. split; [by intros d |].
  unfold InitHandshakeACK, SetHandshakeAck in H.
  destruct (json_Marshal _) as [j | e] eqn:Hj; [| done].
  destruct (codec_Encode packet.HandshakeAck (Some j)) as [b | e] eqn:Hb;
    [| done].
  injection H as <-. exists j, b. do 3 (split; [done |]).
  intros p Hp.
  destruct (processPacket_handshake_ok
              (with_handshakeAckData (Some b) c) p Hp) as [c2 Hc2].
  exists c2. split; [done |].
  pose proof (processPacket_effect _ _ _ Hc2) as He. rewrite Hp in He.
  by destruct He as (_ & _ & _ & _ & _ & -> & _).
Qed.

(** X20. After a successful [InitReqHandshake] the handshake payload is the
    encoding of the marshalled options; [Run] then gets past its
    configuration check, and when it connects, that payload is the buffer
    it queues. *)
Theorem InitReqHandshake_then_Run version hType rsa userData c c1 :
  InitReqHandshake json_map box_opts version hType rsa userData c
    = (c1, None) →
  ∃ j b,
    json_Marshal
      (box_opts {| Sys_ := {| Version := version; Type_ := hType;
                              RSA := rsa |};
                   UserData := userData |}) = inl j ∧
    codec_Encode packet.Handshake (Some j) = inl b ∧
    handshakeData c1 = Some b ∧
    (∀ addr ws c2,
       Run_start addr ws c1 = inl c2 →
       chSend c2 = chSend c ++ [(ByRun, Some b)] ∧ connecting c2 = true) ∧
    (∀ addr ws c2 e,
       Run_start addr ws c1 = inr (c2, e) →
       codec_Encode packet.HandshakeAck None = inr e ∨
       codec_Encode packet.Heartbeat None = inr e ∨
       Dial addr ws = Some e).
Proof.
  intros H. unfold InitReqHandshake, SetHandshake in H.
  destruct (json_Marshal _) as [j | e] eqn:Hj; [| done].
  destruct (codec_Encode packet.Handshake (Some j)) as [b | e] eqn:Hb;
    [| done].
  injection H as <-. exists j, b. do 3 (split; [done |]).
  split.
  - intros addr ws c2 H. unfold Run_start, SetHandshakeAck, SetHeartBeat in H.
    cbn in H.
    destruct (handshakeAckData c);
      [| destruct (codec_Encode packet.HandshakeAck None); [| done]];
      cbn in H;
      (destruct (heartbeatData c);
         [| destruct (codec_Encode packet.Heartbeat None); [| done]]);
      cbn in H;
      (destruct (Dial addr ws); [done |]);
      by injection H as <-.
  - intros addr ws c2 e H.
    unfold Run_start, SetHandshakeAck, SetHeartBeat in H. cbn in H.
    destruct (handshakeAckData c);
      [| destruct (codec_Encode packet.HandshakeAck None) eqn:Ha;
         [| injection H as <- <-; by left]];
      cbn in H;
      (destruct (heartbeatData c);
         [| destruct (codec_Encode packet.Heartbeat None) eqn:Hh;
            [| injection H as <- <-; right; by left]]);
      cbn in H;
      (destruct (Dial addr ws) eqn:Hd; [| done]);
      injection H as <- <-; right; by right.
Qed.

End Handshake_helpers.

End Connector_more_facts.

(** * More properties on concrete runs *)

Section More_concrete_runs.

Local Existing Instance Stub.externals.

(** [Run] on a connector with no handshake configured. *)
Lemma Run_fails_before_connecting_witness :
  Run Stub.addr false [Stub.receive Stub.handshake_200] Stub.fresh
    = Returned Stub.fresh (Some "handshake not defined"%string) ∧
  chSend Stub.fresh = [].
Proof.
  split; [| reflexivity].
  exact (proj1 (Run_fails_before_connecting Stub.addr false
                  [Stub.receive Stub.handshake_200] Stub.fresh Stub.fresh
                  "handshake not defined"%string eq_refl)).
Defined.

(** [Run] on a connector with only the handshake configured: the default
    acknowledgement and heartbeat are filled in. *)
Lemma Run_connects_witness :
  handshakeAckData Stub.configured = None ∧
  handshakeAckData Stub.connected = Some [Byte.x02] ∧
  heartbeatData Stub.connected = Some [Byte.x03] ∧
  chSend Stub.connected = [(ByRun, Some [Byte.x01; Byte.x7b; Byte.x7d])].
Proof.
  split; [reflexivity |].
  destruct (Run_connects Stub.addr false Stub.configured Stub.connected eq_refl)
    as (_ & _ & _ & _ & _ & _ & Hack & Hbeat & _ & _ & Hq & _).
  split; [exact Hack |]. split; [exact Hbeat | exact Hq].
Defined.


Lemma Close_is_safe_and_idempotent_witness :
  transport_held Stub.connected = true ∧
  transport_held
    (Stub.after [Deliver (Stub.packet_of Stub.handshake_200);
                 Do (DoTick 0%nat)] Stub.connected) = true.
Proof.
  split; [reflexivity |].
  exact (proj1 (Close_is_safe_and_idempotent
                  [Deliver (Stub.packet_of Stub.handshake_200);
                   Do (DoTick 0%nat)] Stub.connected _ eq_refl eq_refl)).
Defined.

Lemma send_queue_only_grows_witness :
  ∃ l, chSend (Stub.after [Deliver (Stub.packet_of Stub.handshake_200);
                           Do (DoTick 0%nat);
                           Do (DoRequest "room.join" [] (Some (Fn 1)))]
                 Stub.connected)
       = chSend Stub.connected ++ l ∧
       Forall (λ f, is_Some (snd f)) l.
Proof.
  destruct (send_queue_only_grows
              [Deliver (Stub.packet_of Stub.handshake_200);
               Do (DoTick 0%nat);
               Do (DoRequest "room.join" [] (Some (Fn 1)))]
              Stub.connected _ eq_refl)
    as ((l & Hq & Hn) & _).
  exists l. split; [exact Hq |].
  apply Hn; by eexists.
Defined.

(** Two messages go out and one request fails: the counter is at 2. *)
Lemma counter_counts_messages_sent_witness :
  mid Stub.connected = 0 ∧
  mid (Stub.after [Do (DoNotify "room.message" []);
                   Do (DoRequest "" [] (Some (Fn 1)));
                   Do (DoRequest "room.join" [] (Some (Fn 2)))]
         Stub.connected) = 2.
Proof.
  split; [reflexivity |].
  refine (proj1 (counter_counts_messages_sent
                   [Do (DoNotify "room.message" []);
                    Do (DoRequest "" [] (Some (Fn 1)));
                    Do (DoRequest "room.join" [] (Some (Fn 2)))]
                   Stub.connected _ _ eq_refl)).
  by compute.
Defined.

Lemma consecutive_Requests_keep_both_callbacks_witness :
  responses
    (fst (Request "room.leave" [] (Some (Fn 2))
            (fst (Request "room.join" [] (Some (Fn 1)) Stub.connected))))
    !! 0 = Some (Fn 1) ∧
  responses
    (fst (Request "room.leave" [] (Some (Fn 2))
            (fst (Request "room.join" [] (Some (Fn 1)) Stub.connected))))
    !! 1 = Some (Fn 2).
Proof.
  destruct (consecutive_Requests_keep_both_callbacks Stub.connected
              "room.join" [] (Fn 1)
              (fst (Request "room.join" [] (Some (Fn 1)) Stub.connected))
              "room.leave" [] (Fn 2)
              (fst (Request "room.leave" [] (Some (Fn 2))
                      (fst (Request "room.join" [] (Some (Fn 1))
                              Stub.connected))))
              ltac:(by compute) eq_refl eq_refl)
    as (_ & _ & H1 & H2 & _).
  split; [exact H1 | exact H2].
Defined.

Lemma Request_queues_one_packet_witness :
  ∃ b payload,
    Stub.encode_message (request_message "room.join" [Byte.x7b; Byte.x7d]
                           Stub.connected) = inl b ∧
    Stub.encode packet.Data (Some b) = inl payload ∧
    chSend (fst (Request "room.join" [Byte.x7b; Byte.x7d] (Some (Fn 1))
                   Stub.connected))
      = chSend Stub.connected ++ [(BySendMessage, Some payload)].
Proof.
  destruct (Request_queues_one_packet "room.join" [Byte.x7b; Byte.x7d] (Fn 1)
              Stub.connected _ eq_refl)
    as (b & payload & Hm & Hc & Hq & _).
  by exists b, payload.
Defined.

Lemma processPacket_ignores_witness :
  processPacket Stub.connected (Stub.packet_of [Byte.x03]) = Alive Stub.connected.
Proof.
  apply processPacket_ignores. right. by left.
Defined.


(** A handshake response [{"code":200}] with no heartbeat interval. *)
Lemma nonpositive_ticker_period_panics_witness :
  ∃ c', processPacket Stub.connected
          (Stub.packet_of [Byte.x01; Byte.x00; Byte.xc8; Byte.x00]) = Alive c' ∧
        ticker_step 0 c' = Panicked.
Proof.
  destruct (nonpositive_ticker_period_panics Stub.connected
              (Stub.packet_of [Byte.x01; Byte.x00; Byte.xc8; Byte.x00])
              {| Code := 200; Sys := {| Heartbeat := 0 |} |}
              eq_refl eq_refl eq_refl ltac:(by compute))
    as ((c' & Hp & _ & Hstep & _) & _).
  by exists c'.
Defined.

(** The handshake, the start of the ticker, and three ticks. *)
Lemma heartbeat_sent_on_every_tick_witness :
  ∃ c', exec (Deliver (Stub.packet_of Stub.handshake_200)
                :: Do (DoTick 0%nat) :: repeat (Do (DoTick 0%nat)) 6)
          Stub.connected = Alive c' ∧
        heartbeats_sent c' = 3%nat.
Proof.
  destruct (heartbeat_sent_on_every_tick Stub.connected
              (Stub.packet_of Stub.handshake_200)
              {| Code := 200; Sys := {| Heartbeat := 3 |} |} 3
              eq_refl eq_refl eq_refl ltac:(by compute) eq_refl)
    as ((c' & He & _ & Hn & _) & _).
  by exists c'.
Defined.


(** The first write fails; the second buffer is written all the same, and
    the buffer received after the teardown signal is not. *)
Lemma write_until_teardown_witness :
  write Stub.connected
    ([FromChSend (Some [Byte.x01]) (Some "broken pipe"%string);
      FromChSend (Some [Byte.x03]) None]
     ++ FromDie :: [FromChSend (Some [Byte.x04]) None])
  = ([Some [Byte.x01]; Some [Byte.x03]], true).
Proof.
  destruct (write_until_teardown Stub.connected
              [FromChSend (Some [Byte.x01]) (Some "broken pipe"%string);
               FromChSend (Some [Byte.x03]) None]
              [FromChSend (Some [Byte.x04]) None] eq_refl)
    as (Hopen & _).
  exact (proj2 (Hopen ConnOpen eq_refl)).
Defined.

(** Stand-ins for the boxing of the two handshake structures. *)
Lemma InitHandshakeACK_ignores_its_argument_witness :
  InitHandshakeACK (E := Stub.externals) (λ _, [Byte.x7b; Byte.x7d]) 30 Stub.configured
    = InitHandshakeACK (E := Stub.externals) (λ _, [Byte.x7b; Byte.x7d]) 5 Stub.configured ∧
  handshakeAckData
    (fst (InitHandshakeACK (E := Stub.externals) (λ _, [Byte.x7b; Byte.x7d]) 30 Stub.configured))
    = Some [Byte.x02; Byte.x7b; Byte.x7d].
Proof.
  destruct (InitHandshakeACK_ignores_its_argument (E := Stub.externals)
              (λ _, [Byte.x7b; Byte.x7d])
              30 Stub.configured _ eq_refl)
    as (Hany & j & b & Hj & Hb & Hack & _).
  split; [by rewrite (Hany 5) |].
  injection Hj as <-. injection Hb as <-. exact Hack.
Defined.

Lemma InitReqHandshake_then_Run_witness :
  ∃ c2, Run_start Stub.addr false
          (fst (InitReqHandshake (E := Stub.externals) unit
                  (λ _, [Byte.x7b; Byte.x7d])
                  "1.0.0" "go-client" tt tt Stub.fresh)) = inl c2 ∧
        chSend c2 = [(ByRun, Some [Byte.x01; Byte.x7b; Byte.x7d])].
Proof.
  destruct (InitReqHandshake_then_Run (E := Stub.externals) unit
              (λ _, [Byte.x7b; Byte.x7d])
              "1.0.0" "go-client" tt tt Stub.fresh _ eq_refl)
    as (j & b & Hj & Hb & _ & Hrun & _).
  eexists. split; [reflexivity |].
  injection Hj as <-. injection Hb as <-.
  exact (proj1 (Hrun Stub.addr false _ eq_refl)).
Defined.

(** Requests 0 and 1 are pending; the response to 1 arrives first. *)
Lemma responses_are_matched_by_id_witness :
  ∃ c1 c2,
    processMessage
      (Stub.after [Do (DoRequest "room.join" [] (Some (Fn 1)));
                   Do (DoRequest "room.leave" [] (Some (Fn 2)))]
         Stub.connected)
      (response_for 1 "" [Byte.x62]) = Alive c1 ∧
    processMessage c1 (response_for 0 "" [Byte.x61]) = Alive c2 ∧
    calls c2 = [InvokeCallback (Fn 2) [Byte.x62];
                InvokeCallback (Fn 1) [Byte.x61]] ∧
    responses c2 !! 0 = None ∧ responses c2 !! 1 = None.
Proof.
  destruct (responses_are_matched_by_id
              (Stub.after [Do (DoRequest "room.join" [] (Some (Fn 1)));
                           Do (DoRequest "room.leave" [] (Some (Fn 2)))]
                 Stub.connected)
              0 (Fn 1) 1 (Fn 2) ""%string [Byte.x61] ""%string [Byte.x62]
              eq_refl eq_refl ltac:(done))
    as (c1 & c2 & H1 & H2 & Hcalls & _ & Ha & Hb & _).
  exists c1, c2.
  split; [exact H1 |]. split; [exact H2 |].
  split; [exact Hcalls |]. split; [exact Ha | exact Hb].
Defined.

End More_concrete_runs.
